(** * Verification of the voting-record parser of [analyze_voting.py]

    The development embeds [read_voting_data] and its nested helper
    [categorize_result] together with the Python built-ins they call
    ([str.strip], [str.upper], [str.split], [str.join], [str.startswith],
    [str.endswith], slicing and indexing), and proves the properties the
    specification states about them.

    A Python [str] is a sequence of Unicode code points; it is modelled as a
    list of code points, each an [N].  Operations that can raise in Python
    return a value of [res], so that the absence of exceptions is a theorem
    and not an artefact of the model. *)

From Stdlib Require Import Strings.String Strings.Ascii.
From Stdlib Require Import List NArith ZArith Bool Lia.
From Stdlib Require Import Permutation Sorted.
From Stdlib Require DecimalString.
Import ListNotations.

Definition char := N.
Definition pystr := list char.

(** ** Unicode data used by [str.strip] and [str.upper] *)

Module Unicode.
Local Open Scope N_scope.

(** [Py_UNICODE_ISSPACE]: the code points [str.strip()] removes and
    [str.isspace()] accepts (bidirectional class WS, B or S, or category
    Zs). *)
Definition is_space (c : char) : bool :=
  ((0x09 <=? c) && (c <=? 0x0D)) || ((0x1C <=? c) && (c <=? 0x20))
  || (c =? 0x85) || (c =? 0xA0) || (c =? 0x1680)
  || ((0x2000 <=? c) && (c <=? 0x200A))
  || (c =? 0x2028) || (c =? 0x2029) || (c =? 0x202F) || (c =? 0x205F)
  || (c =? 0x3000).

(** Simple uppercase mappings (UnicodeData.txt, Unicode 14.0.0, the version
    CPython 3.11 ships), run-length encoded: [(lo, n, stride, up)] maps the
    [n] code points [lo], [lo + stride], ... to [up], [up + stride], ... *)
Definition simple_upper_runs : list (N * N * N * N) :=
  [
    (0x61, 26, 1, 0x41); (0xB5, 1, 1, 0x39C); (0xE0, 23, 1, 0xC0);
    (0xF8, 7, 1, 0xD8); (0xFF, 1, 1, 0x178); (0x101, 24, 2, 0x100);
    (0x131, 1, 1, 0x49); (0x133, 3, 2, 0x132); (0x13A, 8, 2, 0x139);
    (0x14B, 23, 2, 0x14A); (0x17A, 3, 2, 0x179); (0x17F, 1, 1, 0x53);
    (0x180, 1, 1, 0x243); (0x183, 2, 2, 0x182); (0x188, 1, 1, 0x187);
    (0x18C, 1, 1, 0x18B); (0x192, 1, 1, 0x191); (0x195, 1, 1, 0x1F6);
    (0x199, 1, 1, 0x198); (0x19A, 1, 1, 0x23D); (0x19E, 1, 1, 0x220);
    (0x1A1, 3, 2, 0x1A0); (0x1A8, 1, 1, 0x1A7); (0x1AD, 1, 1, 0x1AC);
    (0x1B0, 1, 1, 0x1AF); (0x1B4, 2, 2, 0x1B3); (0x1B9, 1, 1, 0x1B8);
    (0x1BD, 1, 1, 0x1BC); (0x1BF, 1, 1, 0x1F7); (0x1C5, 1, 1, 0x1C4);
    (0x1C6, 1, 1, 0x1C4); (0x1C8, 1, 1, 0x1C7); (0x1C9, 1, 1, 0x1C7);
    (0x1CB, 1, 1, 0x1CA); (0x1CC, 1, 1, 0x1CA); (0x1CE, 8, 2, 0x1CD);
    (0x1DD, 1, 1, 0x18E); (0x1DF, 9, 2, 0x1DE); (0x1F2, 1, 1, 0x1F1);
    (0x1F3, 1, 1, 0x1F1); (0x1F5, 1, 1, 0x1F4); (0x1F9, 20, 2, 0x1F8);
    (0x223, 9, 2, 0x222); (0x23C, 1, 1, 0x23B); (0x23F, 2, 1, 0x2C7E);
    (0x242, 1, 1, 0x241); (0x247, 5, 2, 0x246); (0x250, 1, 1, 0x2C6F);
    (0x251, 1, 1, 0x2C6D); (0x252, 1, 1, 0x2C70); (0x253, 1, 1, 0x181);
    (0x254, 1, 1, 0x186); (0x256, 2, 1, 0x189); (0x259, 1, 1, 0x18F);
    (0x25B, 1, 1, 0x190); (0x25C, 1, 1, 0xA7AB); (0x260, 1, 1, 0x193);
    (0x261, 1, 1, 0xA7AC); (0x263, 1, 1, 0x194); (0x265, 1, 1, 0xA78D);
    (0x266, 1, 1, 0xA7AA); (0x268, 1, 1, 0x197); (0x269, 1, 1, 0x196);
    (0x26A, 1, 1, 0xA7AE); (0x26B, 1, 1, 0x2C62); (0x26C, 1, 1, 0xA7AD);
    (0x26F, 1, 1, 0x19C); (0x271, 1, 1, 0x2C6E); (0x272, 1, 1, 0x19D);
    (0x275, 1, 1, 0x19F); (0x27D, 1, 1, 0x2C64); (0x280, 1, 1, 0x1A6);
    (0x282, 1, 1, 0xA7C5); (0x283, 1, 1, 0x1A9); (0x287, 1, 1, 0xA7B1);
    (0x288, 1, 1, 0x1AE); (0x289, 1, 1, 0x244); (0x28A, 2, 1, 0x1B1);
    (0x28C, 1, 1, 0x245); (0x292, 1, 1, 0x1B7); (0x29D, 1, 1, 0xA7B2);
    (0x29E, 1, 1, 0xA7B0); (0x345, 1, 1, 0x399); (0x371, 2, 2, 0x370);
    (0x377, 1, 1, 0x376); (0x37B, 3, 1, 0x3FD); (0x3AC, 1, 1, 0x386);
    (0x3AD, 3, 1, 0x388); (0x3B1, 17, 1, 0x391); (0x3C2, 1, 1, 0x3A3);
    (0x3C3, 9, 1, 0x3A3); (0x3CC, 1, 1, 0x38C); (0x3CD, 2, 1, 0x38E);
    (0x3D0, 1, 1, 0x392); (0x3D1, 1, 1, 0x398); (0x3D5, 1, 1, 0x3A6);
    (0x3D6, 1, 1, 0x3A0); (0x3D7, 1, 1, 0x3CF); (0x3D9, 12, 2, 0x3D8);
    (0x3F0, 1, 1, 0x39A); (0x3F1, 1, 1, 0x3A1); (0x3F2, 1, 1, 0x3F9);
    (0x3F3, 1, 1, 0x37F); (0x3F5, 1, 1, 0x395); (0x3F8, 1, 1, 0x3F7);
    (0x3FB, 1, 1, 0x3FA); (0x430, 32, 1, 0x410); (0x450, 16, 1, 0x400);
    (0x461, 17, 2, 0x460); (0x48B, 27, 2, 0x48A); (0x4C2, 7, 2, 0x4C1);
    (0x4CF, 1, 1, 0x4C0); (0x4D1, 48, 2, 0x4D0); (0x561, 38, 1, 0x531);
    (0x10D0, 43, 1, 0x1C90); (0x10FD, 3, 1, 0x1CBD); (0x13F8, 6, 1, 0x13F0);
    (0x1C80, 1, 1, 0x412); (0x1C81, 1, 1, 0x414); (0x1C82, 1, 1, 0x41E);
    (0x1C83, 2, 1, 0x421); (0x1C85, 1, 1, 0x422); (0x1C86, 1, 1, 0x42A);
    (0x1C87, 1, 1, 0x462); (0x1C88, 1, 1, 0xA64A); (0x1D79, 1, 1, 0xA77D);
    (0x1D7D, 1, 1, 0x2C63); (0x1D8E, 1, 1, 0xA7C6); (0x1E01, 75, 2, 0x1E00);
    (0x1E9B, 1, 1, 0x1E60); (0x1EA1, 48, 2, 0x1EA0); (0x1F00, 8, 1, 0x1F08);
    (0x1F10, 6, 1, 0x1F18); (0x1F20, 8, 1, 0x1F28); (0x1F30, 8, 1, 0x1F38);
    (0x1F40, 6, 1, 0x1F48); (0x1F51, 4, 2, 0x1F59); (0x1F60, 8, 1, 0x1F68);
    (0x1F70, 2, 1, 0x1FBA); (0x1F72, 4, 1, 0x1FC8); (0x1F76, 2, 1, 0x1FDA);
    (0x1F78, 2, 1, 0x1FF8); (0x1F7A, 2, 1, 0x1FEA); (0x1F7C, 2, 1, 0x1FFA);
    (0x1FB0, 2, 1, 0x1FB8); (0x1FBE, 1, 1, 0x399); (0x1FD0, 2, 1, 0x1FD8);
    (0x1FE0, 2, 1, 0x1FE8); (0x1FE5, 1, 1, 0x1FEC); (0x214E, 1, 1, 0x2132);
    (0x2170, 16, 1, 0x2160); (0x2184, 1, 1, 0x2183); (0x24D0, 26, 1, 0x24B6);
    (0x2C30, 48, 1, 0x2C00); (0x2C61, 1, 1, 0x2C60); (0x2C65, 1, 1, 0x23A);
    (0x2C66, 1, 1, 0x23E); (0x2C68, 3, 2, 0x2C67); (0x2C73, 1, 1, 0x2C72);
    (0x2C76, 1, 1, 0x2C75); (0x2C81, 50, 2, 0x2C80); (0x2CEC, 2, 2, 0x2CEB);
    (0x2CF3, 1, 1, 0x2CF2); (0x2D00, 38, 1, 0x10A0); (0x2D27, 1, 1, 0x10C7);
    (0x2D2D, 1, 1, 0x10CD); (0xA641, 23, 2, 0xA640); (0xA681, 14, 2, 0xA680);
    (0xA723, 7, 2, 0xA722); (0xA733, 31, 2, 0xA732); (0xA77A, 2, 2, 0xA779);
    (0xA77F, 5, 2, 0xA77E); (0xA78C, 1, 1, 0xA78B); (0xA791, 2, 2, 0xA790);
    (0xA794, 1, 1, 0xA7C4); (0xA797, 10, 2, 0xA796); (0xA7B5, 8, 2, 0xA7B4);
    (0xA7C8, 2, 2, 0xA7C7); (0xA7D1, 1, 1, 0xA7D0); (0xA7D7, 2, 2, 0xA7D6);
    (0xA7F6, 1, 1, 0xA7F5); (0xAB53, 1, 1, 0xA7B3); (0xAB70, 80, 1, 0x13A0);
    (0xFF41, 26, 1, 0xFF21); (0x10428, 40, 1, 0x10400);
    (0x104D8, 36, 1, 0x104B0); (0x10597, 19, 2, 0x10570);
    (0x10598, 5, 2, 0x10571); (0x105A4, 7, 2, 0x1057D);
    (0x105B4, 3, 2, 0x1058D); (0x105BC, 1, 1, 0x10595);
    (0x10CC0, 51, 1, 0x10C80); (0x118C0, 32, 1, 0x118A0);
    (0x16E60, 32, 1, 0x16E40); (0x1E922, 34, 1, 0x1E900)
  ].

(** Unconditional multi-character uppercase mappings (SpecialCasing.txt). *)
Definition special_upper : list (char * list char) :=
  [
    (0xDF, [0x53; 0x53]); (0x149, [0x2BC; 0x4E]); (0x1F0, [0x4A; 0x30C]);
    (0x390, [0x399; 0x308; 0x301]); (0x3B0, [0x3A5; 0x308; 0x301]);
    (0x587, [0x535; 0x552]); (0x1E96, [0x48; 0x331]); (0x1E97, [0x54; 0x308]);
    (0x1E98, [0x57; 0x30A]); (0x1E99, [0x59; 0x30A]); (0x1E9A, [0x41; 0x2BE]);
    (0x1F50, [0x3A5; 0x313]); (0x1F52, [0x3A5; 0x313; 0x300]);
    (0x1F54, [0x3A5; 0x313; 0x301]); (0x1F56, [0x3A5; 0x313; 0x342]);
    (0x1F80, [0x1F08; 0x399]); (0x1F81, [0x1F09; 0x399]);
    (0x1F82, [0x1F0A; 0x399]); (0x1F83, [0x1F0B; 0x399]);
    (0x1F84, [0x1F0C; 0x399]); (0x1F85, [0x1F0D; 0x399]);
    (0x1F86, [0x1F0E; 0x399]); (0x1F87, [0x1F0F; 0x399]);
    (0x1F88, [0x1F08; 0x399]); (0x1F89, [0x1F09; 0x399]);
    (0x1F8A, [0x1F0A; 0x399]); (0x1F8B, [0x1F0B; 0x399]);
    (0x1F8C, [0x1F0C; 0x399]); (0x1F8D, [0x1F0D; 0x399]);
    (0x1F8E, [0x1F0E; 0x399]); (0x1F8F, [0x1F0F; 0x399]);
    (0x1F90, [0x1F28; 0x399]); (0x1F91, [0x1F29; 0x399]);
    (0x1F92, [0x1F2A; 0x399]); (0x1F93, [0x1F2B; 0x399]);
    (0x1F94, [0x1F2C; 0x399]); (0x1F95, [0x1F2D; 0x399]);
    (0x1F96, [0x1F2E; 0x399]); (0x1F97, [0x1F2F; 0x399]);
    (0x1F98, [0x1F28; 0x399]); (0x1F99, [0x1F29; 0x399]);
    (0x1F9A, [0x1F2A; 0x399]); (0x1F9B, [0x1F2B; 0x399]);
    (0x1F9C, [0x1F2C; 0x399]); (0x1F9D, [0x1F2D; 0x399]);
    (0x1F9E, [0x1F2E; 0x399]); (0x1F9F, [0x1F2F; 0x399]);
    (0x1FA0, [0x1F68; 0x399]); (0x1FA1, [0x1F69; 0x399]);
    (0x1FA2, [0x1F6A; 0x399]); (0x1FA3, [0x1F6B; 0x399]);
    (0x1FA4, [0x1F6C; 0x399]); (0x1FA5, [0x1F6D; 0x399]);
    (0x1FA6, [0x1F6E; 0x399]); (0x1FA7, [0x1F6F; 0x399]);
    (0x1FA8, [0x1F68; 0x399]); (0x1FA9, [0x1F69; 0x399]);
    (0x1FAA, [0x1F6A; 0x399]); (0x1FAB, [0x1F6B; 0x399]);
    (0x1FAC, [0x1F6C; 0x399]); (0x1FAD, [0x1F6D; 0x399]);
    (0x1FAE, [0x1F6E; 0x399]); (0x1FAF, [0x1F6F; 0x399]);
    (0x1FB2, [0x1FBA; 0x399]); (0x1FB3, [0x391; 0x399]);
    (0x1FB4, [0x386; 0x399]); (0x1FB6, [0x391; 0x342]);
    (0x1FB7, [0x391; 0x342; 0x399]); (0x1FBC, [0x391; 0x399]);
    (0x1FC2, [0x1FCA; 0x399]); (0x1FC3, [0x397; 0x399]);
    (0x1FC4, [0x389; 0x399]); (0x1FC6, [0x397; 0x342]);
    (0x1FC7, [0x397; 0x342; 0x399]); (0x1FCC, [0x397; 0x399]);
    (0x1FD2, [0x399; 0x308; 0x300]); (0x1FD3, [0x399; 0x308; 0x301]);
    (0x1FD6, [0x399; 0x342]); (0x1FD7, [0x399; 0x308; 0x342]);
    (0x1FE2, [0x3A5; 0x308; 0x300]); (0x1FE3, [0x3A5; 0x308; 0x301]);
    (0x1FE4, [0x3A1; 0x313]); (0x1FE6, [0x3A5; 0x342]);
    (0x1FE7, [0x3A5; 0x308; 0x342]); (0x1FF2, [0x1FFA; 0x399]);
    (0x1FF3, [0x3A9; 0x399]); (0x1FF4, [0x38F; 0x399]);
    (0x1FF6, [0x3A9; 0x342]); (0x1FF7, [0x3A9; 0x342; 0x399]);
    (0x1FFC, [0x3A9; 0x399]); (0xFB00, [0x46; 0x46]); (0xFB01, [0x46; 0x49]);
    (0xFB02, [0x46; 0x4C]); (0xFB03, [0x46; 0x46; 0x49]);
    (0xFB04, [0x46; 0x46; 0x4C]); (0xFB05, [0x53; 0x54]);
    (0xFB06, [0x53; 0x54]); (0xFB13, [0x544; 0x546]);
    (0xFB14, [0x544; 0x535]); (0xFB15, [0x544; 0x53B]);
    (0xFB16, [0x54E; 0x546]); (0xFB17, [0x544; 0x53D])
  ].

Definition expand_run (r : N * N * N * N) : list (char * list char) :=
  let '(lo, n, stride, up) := r in
  map (fun k => (lo + N.of_nat k * stride, [up + N.of_nat k * stride]))
      (seq 0 (N.to_nat n)).

(** Every code point whose uppercase differs from itself, with its
    uppercase. *)
Definition upper_table : list (char * list char) :=
  Eval vm_compute in special_upper ++ flat_map expand_run simple_upper_runs.

Fixpoint assoc (c : char) (t : list (char * list char)) : option (list char) :=
  match t with
  | [] => None
  | (k, v) :: t' => if k =? c then Some v else assoc c t'
  end.

(** [_PyUnicode_ToUpperFull]: the full uppercase of one code point. *)
Definition to_upper_full (c : char) : list char :=
  match assoc c upper_table with
  | Some v => v
  | None => [c]
  end.

End Unicode.

(** ** Python built-ins *)

Module Py.

(** A string literal of the source, which is UTF-8 text: the bytes of the
    Rocq literal are decoded to code points. *)
Fixpoint utf8_decode (bs : list N) : pystr :=
  match bs with
  | [] => []
  | b0 :: r0 =>
      if (b0 <? 0x80)%N then b0 :: utf8_decode r0
      else if (b0 <? 0xE0)%N then
        match r0 with
        | b1 :: r1 =>
            ((b0 mod 0x20) * 0x40 + b1 mod 0x40)%N :: utf8_decode r1
        | _ => [0xFFFD%N]
        end
      else if (b0 <? 0xF0)%N then
        match r0 with
        | b1 :: b2 :: r2 =>
            ((b0 mod 0x10) * 0x1000 + (b1 mod 0x40) * 0x40 + b2 mod 0x40)%N
              :: utf8_decode r2
        | _ => [0xFFFD%N]
        end
      else
        match r0 with
        | b1 :: b2 :: b3 :: r3 =>
            ((b0 mod 0x08) * 0x40000 + (b1 mod 0x40) * 0x1000
             + (b2 mod 0x40) * 0x40 + b3 mod 0x40)%N :: utf8_decode r3
        | _ => [0xFFFD%N]
        end
  end.

Definition utf8 (s : string) : pystr :=
  utf8_decode (map N_of_ascii (list_ascii_of_string s)).

(** Exceptions and results of operations that may raise. *)
Inductive exn : Type := IndexError.

Inductive res (A : Type) : Type :=
| Ok (a : A)
| Raise (e : exn).
Arguments Ok {A} a.
Arguments Raise {A} e.

Definition bind {A B : Type} (m : res A) (k : A -> res B) : res B :=
  match m with
  | Ok a => k a
  | Raise e => Raise e
  end.

(** [s == t] on strings. *)
Fixpoint str_eqb (s t : pystr) : bool :=
  match s, t with
  | [], [] => true
  | c :: s', d :: t' => (c =? d)%N && str_eqb s' t'
  | _, _ => false
  end.

(** [s in l] for a list of strings [l]. *)
Definition str_in (s : pystr) (l : list pystr) : bool :=
  existsb (str_eqb s) l.

(** [str.lstrip()], [str.rstrip()] and [str.strip()] without argument. *)
Fixpoint lstrip (s : pystr) : pystr :=
  match s with
  | [] => []
  | c :: s' => if Unicode.is_space c then lstrip s' else s
  end.

Definition rstrip (s : pystr) : pystr := rev (lstrip (rev s)).

Definition strip (s : pystr) : pystr := rstrip (lstrip s).

(** [str.upper()]: the full uppercase of each code point, concatenated. *)
Definition upper (s : pystr) : pystr := flat_map Unicode.to_upper_full s.

(** [s.startswith(p)] and [s.endswith(p)]. *)
Definition startswith (s p : pystr) : bool :=
  str_eqb (firstn (length p) s) p.

Definition endswith (s p : pystr) : bool :=
  startswith (rev s) (rev p).

(** [s.split(sep)] for a one-character separator: the pieces between the
    occurrences of [sep], so one piece more than there are occurrences. *)
Fixpoint split (sep : char) (s : pystr) : list pystr :=
  match s with
  | [] => [[]]
  | c :: s' =>
      if (c =? sep)%N then [] :: split sep s'
      else match split sep s' with
           | p :: ps => (c :: p) :: ps
           | [] => [[c]]
           end
  end.

(** [sep.join(parts)]. *)
Fixpoint join (sep : pystr) (parts : list pystr) : pystr :=
  match parts with
  | [] => []
  | [p] => p
  | p :: ps => p ++ sep ++ join sep ps
  end.

(** Bound of a slice of a sequence of length [n]: a negative bound counts
    from the end, and both are clamped to [0..n]. *)
Definition slice_bound (n i : Z) : Z :=
  if (i <? 0)%Z then Z.max 0 (i + n) else Z.min i n.

(** [l[start:stop]]; it never raises. *)
Definition getslice {A : Type} (l : list A) (start stop : Z) : list A :=
  let n := Z.of_nat (length l) in
  let a := slice_bound n start in
  let b := slice_bound n stop in
  firstn (Z.to_nat (b - a)) (skipn (Z.to_nat a) l).

(** [l[i]]; raises [IndexError] out of range. *)
Definition getitem {A : Type} (l : list A) (i : Z) : res A :=
  let n := Z.of_nat (length l) in
  let j := if (i <? 0)%Z then (i + n)%Z else i in
  if (j <? 0)%Z || (n <=? j)%Z then Raise IndexError
  else match nth_error l (Z.to_nat j) with
       | Some x => Ok x
       | None => Raise IndexError
       end.

End Py.

Import Py.

Notation "x <- m ;; k" := (bind m (fun x => k))
  (at level 61, m at next level, right associativity).

(** ** The program: [analyze_voting.py] *)

(** The separator [','] of [content.split(',')]. *)
Definition comma : char := 44%N.

(** [categorize_result], nested in [read_voting_data]. *)
Definition categorize_result (result : pystr) : pystr :=
  let result := upper (strip result) in
  if str_in result [utf8 "SI"; utf8 "SI +++"] then utf8 "yes"
  else if str_in result [utf8 "NO"; utf8 "NO ---"] then utf8 "no"
  else if str_in result [utf8 "ABST"; utf8 "ABSTENCIÓN"] then utf8 "abs"
  else utf8 "others".

(** One element of [data]: the dictionary with keys ['team'], ['name'] and
    ['result']. *)
Record record : Type := mk_record {
  team : pystr;
  name : pystr;
  result : pystr
}.

(** The body of [for line in file], as a function of the list [data] built
    so far. *)
Definition loop_body (data : list record) (line : pystr)
  : res (list record) :=
  let line := strip line in
  if negb (str_eqb line []) && startswith line (utf8 "[")
     && endswith line (utf8 "]") then
    let content := getslice line 1 (-1) in
    let parts := map strip (split comma content) in
    if (3 <=? length parts)%nat then
      team <- getitem parts 0 ;;
      let name := join (utf8 ", ") (getslice parts 1 (-1)) in
      raw_result <- getitem parts (-1) ;;
      let result := categorize_result raw_result in
      Ok (data ++ [mk_record team name result])
    else Ok data
  else Ok data.

Fixpoint for_lines (data : list record) (file : list pystr)
  : res (list record) :=
  match file with
  | [] => Ok data
  | line :: file' => data' <- loop_body data line ;; for_lines data' file'
  end.

(** [read_voting_data], on the lines the opened file yields; the data frame
    it returns holds the rows of [data] in order. *)
Definition read_voting_data (file : list pystr) : res (list record) :=
  for_lines [] file.

(** ** Vocabulary of the specification *)

(** A string of white space only. *)
Definition all_space (ws : pystr) : bool := forallb Unicode.is_space ws.

(** A string with no white space at either end. *)
Definition trimmed (x : pystr) : bool :=
  match x with
  | [] => true
  | c :: _ => negb (Unicode.is_space c) && negb (Unicode.is_space (last x c))
  end.

(** A token holds no occurrence of the separator. *)
Definition sep_free (sep : char) (tok : pystr) : bool :=
  forallb (fun c => negb (c =? sep)%N) tok.

(** The parser as the specification words it: a line is considered when
    its trimmed form starts with an opening and ends with a closing bracket;
    its tokens are the comma-separated pieces between the brackets, each
    trimmed; it is accepted when there are at least three of them; the
    record takes the first token as group, the middle tokens rejoined with
    a comma and a space as name, and the category of the last token. *)
Definition bracketed (l : pystr) : bool :=
  startswith l (utf8 "[") && endswith l (utf8 "]").

Definition tokens (line : pystr) : list pystr :=
  map strip (split comma (removelast (tl (strip line)))).

Definition accepted (line : pystr) : bool :=
  bracketed (strip line) && (3 <=? length (tokens line))%nat.

Definition record_of (line : pystr) : record :=
  let parts := tokens line in
  mk_record (hd [] parts)
            (join (utf8 ", ") (removelast (tl parts)))
            (categorize_result (last parts [])).

Definition parse_lines (file : list pystr) : list record :=
  map record_of (filter accepted file).

(** A line in lower case with white space around the brackets and inside
    them, and the record the parser builds from it. *)
Definition lowercase_line : pystr :=
  utf8 "  [app, acuña peralta , maría, si +++]  ".

Definition lowercase_record : record :=
  mk_record (utf8 "app") (utf8 "acuña peralta, maría") (utf8 "yes").

(** The number of occurrences of a character in a string. *)
Definition count_char (c : char) (s : pystr) : nat :=
  length (filter (N.eqb c) s).

(** A line that holds two bracketed records, as the extraction prompt of
    [congreso_test.py] asks the model to print them. *)
Definition two_record_line : pystr :=
  utf8 "[APP, ACUÑA, MARÍA, SI], [PP, CALLE, DIGNA, NO]".

(** ** The table of [create_charts] and the text files of the pipeline *)

(** [create_charts]: the party name as the table shows it. *)
Definition party_display (party : pystr) : pystr :=
  if (20 <? length party)%nat then getslice party 0 17 ++ utf8 "..."
  else party.

(** What a call outside the parsing loop can raise. *)
Inductive error : Type :=
| UnicodeDecodeError
| UnicodeEncodeError
| KeyError (label : pystr)
| Propagated (e : exn).

Inductive outcome (A : Type) : Type :=
| Returns (a : A)
| Raises (e : error).
Arguments Returns {A} a.
Arguments Raises {A} e.

Definition and_then {A B : Type} (m : outcome A) (k : A -> outcome B)
  : outcome B :=
  match m with
  | Returns a => k a
  | Raises e => Raises e
  end.

Notation "x <~ m ;; k" := (and_then m (fun x => k))
  (at level 61, m at next level, right associativity).

Module TextIO.
Local Open Scope N_scope.

Definition between (lo hi b : N) : bool := (lo <=? b) && (b <=? hi).

(** The first code point of a byte string under the strict 'utf-8' codec,
    with the bytes that follow it: the well-formed byte sequences of the
    Unicode standard (no overlong forms, no surrogates, nothing above
    U+10FFFF). *)
Definition decode_one (bs : list N) : option (char * list N) :=
  match bs with
  | [] => None
  | b0 :: r0 =>
      if b0 <? 0x80 then Some (b0, r0)
      else if between 0xC2 0xDF b0 then
        match r0 with
        | b1 :: r1 =>
            if between 0x80 0xBF b1
            then Some ((b0 - 0xC0) * 0x40 + (b1 - 0x80), r1)
            else None
        | _ => None
        end
      else if between 0xE0 0xEF b0 then
        match r0 with
        | b1 :: b2 :: r2 =>
            if between (if b0 =? 0xE0 then 0xA0 else 0x80)
                       (if b0 =? 0xED then 0x9F else 0xBF) b1
               && between 0x80 0xBF b2
            then Some ((b0 - 0xE0) * 0x1000 + (b1 - 0x80) * 0x40
                       + (b2 - 0x80), r2)
            else None
        | _ => None
        end
      else if between 0xF0 0xF4 b0 then
        match r0 with
        | b1 :: b2 :: b3 :: r3 =>
            if between (if b0 =? 0xF0 then 0x90 else 0x80)
                       (if b0 =? 0xF4 then 0x8F else 0xBF) b1
               && between 0x80 0xBF b2 && between 0x80 0xBF b3
            then Some ((b0 - 0xF0) * 0x40000 + (b1 - 0x80) * 0x1000
                       + (b2 - 0x80) * 0x40 + (b3 - 0x80), r3)
            else None
        | _ => None
        end
      else None
  end.

Fixpoint decode_loop (fuel : nat) (bs : list N) : option pystr :=
  match bs with
  | [] => Some []
  | _ :: _ =>
      match fuel with
      | O => None
      | S fuel' =>
          match decode_one bs with
          | Some (c, rest) =>
              match decode_loop fuel' rest with
              | Some s => Some (c :: s)
              | None => None
              end
          | None => None
          end
      end
  end.

(** [bytes.decode('utf-8')] with [errors='strict']; [None] stands for
    [UnicodeDecodeError].  Each step consumes a byte, so the length of the
    input is fuel enough. *)
Definition utf_8_decode (bs : list N) : option pystr :=
  decode_loop (length bs) bs.

(** The bytes of one code point under the 'utf-8' codec; surrogates cannot
    be encoded. *)
Definition encode_one (c : char) : option (list N) :=
  if c <? 0x80 then Some [c]
  else if c <? 0x800 then Some [0xC0 + c / 0x40; 0x80 + c mod 0x40]
  else if c <? 0x10000 then
    if between 0xD800 0xDFFF c then None
    else Some [0xE0 + c / 0x1000; 0x80 + (c / 0x40) mod 0x40;
               0x80 + c mod 0x40]
  else if c <? 0x110000 then
    Some [0xF0 + c / 0x40000; 0x80 + (c / 0x1000) mod 0x40;
          0x80 + (c / 0x40) mod 0x40; 0x80 + c mod 0x40]
  else None.

(** [str.encode('utf-8')] with [errors='strict']; [None] stands for
    [UnicodeEncodeError]. *)
Fixpoint utf_8_encode (s : pystr) : option (list N) :=
  match s with
  | [] => Some []
  | c :: s' =>
      match encode_one c, utf_8_encode s' with
      | Some bs, Some bs' => Some (bs ++ bs')
      | _, _ => None
      end
  end.

(** Reading in text mode with [newline=None]: a carriage return and line
    feed, or a carriage return alone, is read as one line feed. *)
Fixpoint universal_newlines (s : pystr) : pystr :=
  match s with
  | [] => []
  | c :: s' =>
      if c =? 13 then
        match s' with
        | d :: _ => if d =? 10 then universal_newlines s'
                    else 10 :: universal_newlines s'
        | [] => [10]
        end
      else c :: universal_newlines s'
  end.

(** Writing in text mode with [newline=None]: every line feed is written
    as [os.linesep]. *)
Definition write_newlines (linesep : pystr) (s : pystr) : pystr :=
  flat_map (fun c => if c =? 10 then linesep else [c]) s.

(** [for line in file]: the lines of the text, each with its line feed; the
    last one has none when the text does not end with one. *)
Fixpoint iter_lines (text : pystr) : list pystr :=
  match text with
  | [] => []
  | c :: rest =>
      if c =? 10 then [c] :: iter_lines rest
      else match iter_lines rest with
           | [] => [[c]]
           | l :: ls => (c :: l) :: ls
           end
  end.

End TextIO.

Import TextIO.

(** [open(filename, 'r', encoding='utf-8')] on a file with the given bytes,
    and the lines its iteration yields. *)
Definition open_read (content : list N) : outcome (list pystr) :=
  match utf_8_decode content with
  | Some text => Returns (iter_lines (universal_newlines text))
  | None => Raises UnicodeDecodeError
  end.

(** An exception of the parsing loop leaves the function that runs it. *)
Definition propagate {A : Type} (m : res A) : outcome A :=
  match m with
  | Ok a => Returns a
  | Raise e => Raises (Propagated e)
  end.

(** [read_voting_data], from the bytes of the file it opens. *)
Definition read_voting_file (content : list N) : outcome (list record) :=
  file <~ open_read content ;;
  propagate (read_voting_data file).

(** [congreso_test.py]: the bytes that
    [open(output_file, 'w', encoding='utf-8')] and [f.write(output_content)]
    leave in the file, on a platform whose [os.linesep] is [linesep]. *)
Definition write_text (linesep : pystr) (output_content : pystr)
  : outcome (list N) :=
  match utf_8_encode (write_newlines linesep output_content) with
  | Some bs => Returns bs
  | None => Raises UnicodeEncodeError
  end.

(** The byte-order mark, as bytes. *)
Definition utf8_bom : list N := [0xEF%N; 0xBB%N; 0xBF%N].

(** A byte that occurs in no well-formed UTF-8 text. *)
Definition never_valid (b : N) : bool :=
  (b =? 0xC0)%N || (b =? 0xC1)%N || (0xF5 <=? b)%N.

(** The lines of a file in Latin-1, where [Ñ] is the single byte [0xD1]. *)
Definition latin1_content : list N :=
  map N_of_ascii (list_ascii_of_string "[APP, ACU")
  ++ [0xD1%N] ++ map N_of_ascii (list_ascii_of_string "A, MARIA, SI]").

(** The byte string is empty or ends with an ASCII byte; it is empty or
    starts with one. *)
Definition ends_ascii (bs : list N) : bool :=
  match bs with
  | [] => true
  | _ :: _ => (last bs 0 <? 0x80)%N
  end.

Definition starts_ascii (bs : list N) : bool :=
  match bs with
  | [] => true
  | b :: _ => (b <? 0x80)%N
  end.

(** The bytes of an ASCII literal. *)
Definition ascii_bytes (s : string) : list N :=
  map N_of_ascii (list_ascii_of_string s).

(** Two lines of output as [congreso_test.py] holds them before saving. *)
Definition two_lines_text : pystr :=
  utf8 "[APP, ACUÑA PERALTA, MARÍA GRIMANEZA, SI +++]" ++ [10%N]
  ++ utf8 "[PP, CALLE LOBATÓN, DIGNA, LP]" ++ [10%N].

Definition two_lines_crlf_bytes : list N :=
  Eval vm_compute in
    match write_text [13%N; 10%N] two_lines_text with
    | Returns bs => bs
    | Raises _ => []
    end.

(** ** The frame of vote counts of [create_charts]

    The data frame that [pd.crosstab] returns and [create_charts] extends:
    column labels, and one labelled row of integers per party. *)

Module Frame.

Record frame : Type := mk_frame {
  columns : list pystr;
  rows : list (pystr * list Z)
}.

Definition index (f : frame) : list pystr := map fst (rows f).

(** The position of the first occurrence of a label. *)
Fixpoint position (label : pystr) (labels : list pystr) : option nat :=
  match labels with
  | [] => None
  | l :: labels' =>
      if str_eqb label l then Some O
      else match position label labels' with
           | Some i => Some (S i)
           | None => None
           end
  end.

(** The row of a label. *)
Fixpoint row_of (label : pystr) (rs : list (pystr * list Z))
  : option (list Z) :=
  match rs with
  | [] => None
  | (l, row) :: rs' => if str_eqb label l then Some row else row_of label rs'
  end.

(** [s < t] on strings: the lexicographic order of the code points. *)
Fixpoint str_ltb (s t : pystr) : bool :=
  match s, t with
  | _, [] => false
  | [], _ :: _ => true
  | c :: s', d :: t' => (c <? d)%N || ((c =? d)%N && str_ltb s' t')
  end.

(** The distinct values of a list, in increasing order. *)
Fixpoint insert_sorted (x : pystr) (l : list pystr) : list pystr :=
  match l with
  | [] => [x]
  | y :: l' =>
      if str_eqb x y then l
      else if str_ltb x y then x :: l
      else y :: insert_sorted x l'
  end.

Definition sorted_unique (l : list pystr) : list pystr :=
  fold_right insert_sorted [] l.

(** The number of pairs with the given row and column values. *)
Definition count_pairs (pairs : list (pystr * pystr)) (r c : pystr) : nat :=
  length (filter (fun p => str_eqb (fst p) r && str_eqb (snd p) c) pairs).

(** [pd.crosstab(rows, cols)]: the frequency table of the pairs, with the
    distinct row values as index and the distinct column values as columns,
    both sorted. *)
Definition crosstab (pairs : list (pystr * pystr)) : frame :=
  let cols := sorted_unique (map snd pairs) in
  mk_frame cols
    (map (fun r => (r, map (fun c => Z.of_nat (count_pairs pairs r c)) cols))
         (sorted_unique (map fst pairs))).

Fixpoint replace_at (i : nat) (x : Z) (row : list Z) : list Z :=
  match row, i with
  | [], _ => []
  | _ :: row', O => x :: row'
  | y :: row', S i' => y :: replace_at i' x row'
  end.

(** [f[c] = values], for one value per row: the column is replaced when
    the frame has it and added at the right otherwise. *)
Definition set_column (f : frame) (c : pystr) (values : list Z) : frame :=
  match position c (columns f) with
  | Some i =>
      mk_frame (columns f)
        (map (fun rx => (fst (fst rx), replace_at i (snd rx) (snd (fst rx))))
             (combine (rows f) values))
  | None =>
      mk_frame (columns f ++ [c])
        (map (fun rx => (fst (fst rx), snd (fst rx) ++ [snd rx]))
             (combine (rows f) values))
  end.

(** [f[c] = v] for a scalar [v]. *)
Definition set_column_const (f : frame) (c : pystr) (v : Z) : frame :=
  set_column f c (repeat v (length (rows f))).

Fixpoint map_outcome {A B : Type} (g : A -> outcome B) (l : list A)
  : outcome (list B) :=
  match l with
  | [] => Returns []
  | a :: l' => b <~ g a ;; bs <~ map_outcome g l' ;; Returns (b :: bs)
  end.

Definition column_position (f : frame) (c : pystr) : outcome nat :=
  match position c (columns f) with
  | Some i => Returns i
  | None => Raises (KeyError c)
  end.

(** [f[cols]] for a list of labels: these columns, in this order;
    [KeyError] when one is missing. *)
Definition select_columns (f : frame) (cols : list pystr) : outcome frame :=
  ps <~ map_outcome (column_position f) cols ;;
  Returns (mk_frame cols
             (map (fun r => (fst r, map (fun i => nth i (snd r) 0%Z) ps))
                  (rows f))).

(** [f.sum(axis=1)]: the sum of each row. *)
Definition sum_rows (f : frame) : list Z :=
  map (fun r => fold_right Z.add 0%Z (snd r)) (rows f).

(** [f[c]] for one label: the values of the column. *)
Definition column (f : frame) (c : pystr) : outcome (list Z) :=
  i <~ column_position f c ;;
  Returns (map (fun r => nth i (snd r) 0%Z) (rows f)).

(** [f[c].sum()]. *)
Definition column_sum (f : frame) (c : pystr) : outcome Z :=
  values <~ column f c ;; Returns (fold_right Z.add 0%Z values).

(** [f.loc[r, c]]. *)
Definition loc (f : frame) (r c : pystr) : outcome Z :=
  match row_of r (rows f) with
  | None => Raises (KeyError r)
  | Some row => i <~ column_position f c ;; Returns (nth i row 0%Z)
  end.

(** [f.sort_values(key, ascending=False)] returns [g]: the rows of [f] in an
    order in which the values of the column decrease; pandas does not fix
    the order of rows with equal values. *)
Definition sorted_descending (key : pystr) (f g : frame) : Prop :=
  columns g = columns f
  /\ Permutation (rows g) (rows f)
  /\ exists i, position key (columns f) = Some i
               /\ Sorted (fun r r' => (nth i (snd r') 0 <= nth i (snd r) 0)%Z)
                         (rows g).

End Frame.

Import Frame.

(** [str(n)] for an integer. *)
Definition str_int (n : Z) : pystr :=
  map N_of_ascii
      (list_ascii_of_string (DecimalString.NilZero.string_of_int (Z.to_int n))).

(** [create_charts]: the categories of the table, in its order. *)
Definition result_categories : list pystr :=
  [utf8 "yes"; utf8 "no"; utf8 "abs"; utf8 "others"].

(** [create_charts], from the rows of the top teams to the frame with the
    four category columns: the cross tabulation, a column of zeros for
    every category that is missing, and the columns in the order of
    [result_categories].  The data frame of no record at all,
    [pd.DataFrame([])], has no column, so that [df['team']] raises
    [KeyError] on it. *)
Definition vote_by_team (df : list record) (top_teams : list pystr)
  : outcome frame :=
  match df with
  | [] => Raises (KeyError (utf8 "team"))
  | _ :: _ =>
      let df_top_teams := filter (fun r => str_in (team r) top_teams) df in
      let vote_by_team :=
        crosstab (map (fun r => (team r, result r)) df_top_teams) in
      let vote_by_team :=
        fold_left
          (fun f category =>
             if negb (str_in category (columns f))
             then set_column_const f category 0
             else f)
          result_categories vote_by_team in
      select_columns vote_by_team result_categories
  end.

(** The copy with the ['Total'] column, before it is sorted. *)
Definition with_total (vote_by_team : frame) : frame :=
  set_column vote_by_team (utf8 "Total") (sum_rows vote_by_team).

(** The numbers of the table row of a party. *)
Definition party_numbers (t : frame) (party : pystr) : outcome (list Z) :=
  map_outcome (loc t party)
              [utf8 "yes"; utf8 "no"; utf8 "abs"; utf8 "others"; utf8 "Total"].

(** The numbers of the totals row. *)
Definition totals (t : frame) : outcome (list Z) :=
  map_outcome (column_sum t)
              [utf8 "yes"; utf8 "no"; utf8 "abs"; utf8 "others"; utf8 "Total"].

(** [table_data], from the sorted frame [t]: a row per party of the index
    and the totals row. *)
Definition table_data (t : frame) : outcome (list (list pystr)) :=
  party_rows <~
    map_outcome
      (fun party =>
         numbers <~ party_numbers t party ;;
         Returns (party_display party :: map str_int numbers))
      (index t) ;;
  numbers <~ totals t ;;
  Returns (party_rows ++ [utf8 "TOTAL" :: map str_int numbers]).

(** The number of rows of the data frame with the given team. *)
Definition team_size (df : list record) (party : pystr) : nat :=
  length (filter (fun r => str_eqb (team r) party) df).

(** [df['team'].value_counts().head(10).index] may be [top_teams]: the
    first ten of the distinct teams in an order of decreasing size; pandas
    does not fix the order of teams of equal size. *)
Definition is_top_teams (df : list record) (top_teams : list pystr) : Prop :=
  exists order,
    Permutation order (sorted_unique (map team df))
    /\ Sorted (fun a b => (team_size df b <= team_size df a)%nat) order
    /\ top_teams = firstn 10 order.

(** The number of rows of the data frame with the given team and result. *)
Definition vote_count (df : list record) (party category : pystr) : nat :=
  length (filter (fun r => str_eqb (team r) party
                           && str_eqb (result r) category) df).

(** A frame given by its row function: the row of each label of the
    index. *)
Definition table (rowf : pystr -> list Z) (idx cols : list pystr) : frame :=
  mk_frame cols (map (fun r => (r, rowf r)) idx).

Definition sum_list (l : list Z) : Z := fold_right Z.add 0%Z l.

(** The rows of the data frame that [create_charts] keeps, as pairs of team
    and result. *)
Definition top_pairs (df : list record) (top_teams : list pystr)
  : list (pystr * pystr) :=
  map (fun r => (team r, result r))
      (filter (fun r => str_in (team r) top_teams) df).

(** The number of rows of the top teams with the given result. *)
Definition top_count (df : list record) (top_teams : list pystr)
    (category : pystr) : nat :=
  length (filter (fun r => str_in (team r) top_teams
                           && str_eqb (result r) category) df).

(** A data frame of three rows, its frame of counts and its table frame. *)
Definition three_rows : list record :=
  [mk_record (utf8 "APP") (utf8 "ACUÑA PERALTA, MARÍA GRIMANEZA") (utf8 "yes");
   mk_record (utf8 "PP") (utf8 "CALLE LOBATÓN, DIGNA") (utf8 "others");
   mk_record (utf8 "APP") (utf8 "SALHUANA CAVIDES, EDUARDO") (utf8 "no")].

Definition three_rows_file : list pystr :=
  [utf8 "[APP, ACUÑA PERALTA, MARÍA GRIMANEZA, SI +++]";
   utf8 "[PP, CALLE LOBATÓN, DIGNA, LP]";
   utf8 "[APP, SALHUANA CAVIDES, EDUARDO, NO ---]"].

Definition three_rows_counts : frame :=
  mk_frame result_categories
           [(utf8 "APP", [1; 1; 0; 0]%Z); (utf8 "PP", [0; 0; 0; 1]%Z)].

Definition three_rows_table : frame :=
  mk_frame (result_categories ++ [utf8 "Total"])
           [(utf8 "APP", [1; 1; 0; 0; 2]%Z); (utf8 "PP", [0; 0; 0; 1; 1]%Z)].

(** [create_charts]: the dictionary [result_colors], and [d[key]]. *)
Definition result_colors : list (pystr * pystr) :=
  [(utf8 "yes", utf8 "#2ecc71"); (utf8 "no", utf8 "#e74c3c");
   (utf8 "abs", utf8 "#f39c12"); (utf8 "others", utf8 "#95a5a6")].

Fixpoint dict_getitem (d : list (pystr * pystr)) (key : pystr)
  : outcome pystr :=
  match d with
  | [] => Raises (KeyError key)
  | (k, v) :: d' => if str_eqb key k then Returns v else dict_getitem d' key
  end.

(** [pie_colors], for the index of [df['result'].value_counts()]: the
    distinct results of a data frame that has records, in the order of the
    counts. *)
Definition pie_colors (result_index : list pystr) : outcome (list pystr) :=
  map_outcome (dict_getitem result_colors) result_index.

(** * Facts about the Unicode data *)

Section UnicodeFacts.
Import Unicode.

Lemma assoc_In (c : char) (v : list char) (t : list (char * list char)) :
  assoc c t = Some v -> In (c, v) t.
Proof.
  induction t as [|[k w] t IH]; simpl; [discriminate|].
  destruct (N.eqb_spec k c) as [->|_].
  - intros [= ->]. now left.
  - intros H. right. now apply IH.
Qed.

(** A property of a code point and its uppercase holds for every code point
    as soon as it holds on the table and for the unmapped ones. *)
Lemma upper_table_ind (P : char -> list char -> bool) :
  forallb (fun kv => P (fst kv) (snd kv)) upper_table = true ->
  (forall c, assoc c upper_table = None -> P c [c] = true) ->
  forall c, P c (to_upper_full c) = true.
Proof.
  intros Htab Hid c. unfold to_upper_full.
  destruct (assoc c upper_table) as [v|] eqn:E.
  - apply assoc_In in E.
    rewrite forallb_forall in Htab. exact (Htab _ E).
  - now apply Hid.
Qed.

Lemma assoc_space_None (c : char) :
  is_space c = true -> assoc c upper_table = None.
Proof.
  intros Hc.
  destruct (assoc c upper_table) as [v|] eqn:E; [|reflexivity].
  apply assoc_In in E.
  assert (Hall : forallb (fun kv => negb (is_space (fst kv))) upper_table
                 = true) by (vm_compute; reflexivity).
  rewrite forallb_forall in Hall. specialize (Hall _ E). simpl in Hall.
  rewrite Hc in Hall. discriminate.
Qed.

(** White space has no case. *)
Lemma to_upper_full_space (c : char) :
  is_space c = true -> to_upper_full c = [c].
Proof.
  intros Hc. unfold to_upper_full. now rewrite assoc_space_None.
Qed.

(** The uppercase of a code point that is not white space is not empty and
    holds no white space. *)
Lemma to_upper_full_nonspace (c : char) :
  is_space c = false ->
  to_upper_full c <> [] /\
  forallb (fun d => negb (is_space d)) (to_upper_full c) = true.
Proof.
  intros Hc.
  pose (P := fun (k : char) (v : list char) =>
    is_space k
    || (negb (Nat.eqb (length v) 0)
        && forallb (fun d => negb (is_space d)) v)).
  assert (HP : P c (to_upper_full c) = true).
  { apply upper_table_ind.
    - vm_compute; reflexivity.
    - intros k _. unfold P. simpl.
      destruct (is_space k); reflexivity. }
  unfold P in HP. rewrite Hc in HP. simpl in HP.
  apply andb_true_iff in HP as [Hlen Hall]. split; [|exact Hall].
  intros E. rewrite E in Hlen. discriminate.
Qed.

(** Every code point of an uppercase is its own uppercase. *)
Lemma to_upper_full_fixed (c d : char) :
  In d (to_upper_full c) -> assoc d upper_table = None.
Proof.
  pose (unmapped := fun d => match assoc d upper_table with
                             | None => true | Some _ => false end).
  pose (P := fun (k : char) (v : list char) =>
    match assoc k upper_table with
    | Some _ => forallb unmapped v
    | None => true
    end).
  assert (HP : P c (to_upper_full c) = true).
  { apply upper_table_ind.
    - vm_compute; reflexivity.
    - intros k Hk. unfold P. now rewrite Hk. }
  intros Hd. unfold P in HP. unfold to_upper_full in Hd, HP.
  destruct (assoc c upper_table) as [v|] eqn:E.
  - rewrite forallb_forall in HP. specialize (HP _ Hd). unfold unmapped in HP.
    destruct (assoc d upper_table); [discriminate|reflexivity].
  - destruct Hd as [<-|[]]. exact E.
Qed.

Lemma upper_app (s t : pystr) : upper (s ++ t) = upper s ++ upper t.
Proof. unfold upper. apply flat_map_app. Qed.

(** [str.upper] is idempotent. *)
Lemma upper_idempotent (s : pystr) : upper (upper s) = upper s.
Proof.
  induction s as [|c s IH]; [reflexivity|].
  change (upper (c :: s)) with (to_upper_full c ++ upper s).
  rewrite upper_app, IH. f_equal.
  assert (H : forall l, (forall d, In d l -> assoc d upper_table = None) ->
                        upper l = l).
  { induction l as [|d l IHl]; intros Hl; [reflexivity|].
    change (upper (d :: l)) with (to_upper_full d ++ upper l).
    unfold to_upper_full at 1. rewrite (Hl d (or_introl eq_refl)).
    simpl. f_equal. apply IHl. intros e He. apply Hl. now right. }
  apply H. intros d. apply to_upper_full_fixed.
Qed.

End UnicodeFacts.

(** * Facts about [str.strip] *)

Section StripFacts.
Import Unicode.

Lemma all_space_app (u v : pystr) :
  all_space (u ++ v) = all_space u && all_space v.
Proof. apply forallb_app. Qed.

Lemma all_space_rev (ws : pystr) : all_space (rev ws) = all_space ws.
Proof.
  induction ws as [|c ws IH]; [reflexivity|].
  simpl rev. rewrite all_space_app, IH. simpl.
  rewrite andb_true_r. apply andb_comm.
Qed.

Lemma lstrip_all_space (ws : pystr) : all_space ws = true -> lstrip ws = [].
Proof.
  induction ws as [|c ws IH]; [reflexivity|]. simpl.
  intros H. apply andb_true_iff in H as [Hc Hws]. rewrite Hc. auto.
Qed.

Lemma lstrip_app_space (ws s : pystr) :
  all_space ws = true -> lstrip (ws ++ s) = lstrip s.
Proof.
  induction ws as [|c ws IH]; [reflexivity|]. simpl.
  intros H. apply andb_true_iff in H as [Hc Hws]. rewrite Hc. auto.
Qed.

Lemma lstrip_decomp (s : pystr) :
  exists ws, all_space ws = true /\ s = ws ++ lstrip s.
Proof.
  induction s as [|c s [ws [Hws E]]].
  - now exists [].
  - simpl. destruct (is_space c) eqn:Hc.
    + exists (c :: ws). simpl. rewrite Hc, Hws. split; [reflexivity|].
      now f_equal.
    + now exists [].
Qed.

Lemma lstrip_head (s r : pystr) (c : char) :
  lstrip s = c :: r -> is_space c = false.
Proof.
  induction s as [|a s IH]; simpl; [discriminate|].
  destruct (is_space a) eqn:Ha; [exact IH|].
  now intros [= <- _].
Qed.

Lemma lstrip_mid_nonspace (x y : pystr) (c : char) :
  is_space c = false -> lstrip (x ++ c :: y) = lstrip x ++ c :: y.
Proof.
  intros Hc. induction x as [|a x IH]; simpl.
  - now rewrite Hc.
  - destruct (is_space a); [exact IH|reflexivity].
Qed.

Lemma rstrip_app_space (s ws : pystr) :
  all_space ws = true -> rstrip (s ++ ws) = rstrip s.
Proof.
  intros H. unfold rstrip. rewrite rev_app_distr, lstrip_app_space; auto.
  now rewrite all_space_rev.
Qed.

Lemma rstrip_snoc_nonspace (s : pystr) (c : char) :
  is_space c = false -> rstrip (s ++ [c]) = s ++ [c].
Proof.
  intros Hc. unfold rstrip. rewrite rev_app_distr. simpl. rewrite Hc.
  simpl. now rewrite rev_involutive.
Qed.

Lemma rstrip_cons_nonspace (s : pystr) (c : char) :
  is_space c = false -> rstrip (c :: s) = c :: rstrip s.
Proof.
  intros Hc. unfold rstrip. simpl rev.
  rewrite lstrip_mid_nonspace by exact Hc.
  now rewrite rev_app_distr.
Qed.

Lemma rstrip_decomp (s : pystr) :
  exists ws, all_space ws = true /\ s = rstrip s ++ ws.
Proof.
  destruct (lstrip_decomp (rev s)) as [ws [Hws E]].
  exists (rev ws). rewrite all_space_rev. split; [exact Hws|].
  unfold rstrip. rewrite <- rev_app_distr, <- E. now rewrite rev_involutive.
Qed.

Lemma rstrip_last (s r : pystr) (c : char) :
  rstrip s = r ++ [c] -> is_space c = false.
Proof.
  unfold rstrip. intros E.
  apply (f_equal (@rev char)) in E.
  rewrite rev_involutive, rev_app_distr in E. simpl in E.
  exact (lstrip_head _ _ _ E).
Qed.

Lemma trimmed_intro (x r r' : pystr) (c d : char) :
  x = c :: r -> x = r' ++ [d] ->
  is_space c = false -> is_space d = false -> trimmed x = true.
Proof.
  intros E1 E2 Hc Hd. rewrite E1. unfold trimmed. rewrite <- E1.
  rewrite E2 at 1. rewrite last_last, Hc, Hd. reflexivity.
Qed.

Lemma trimmed_elim (x : pystr) :
  trimmed x = true ->
  x = [] \/
  exists c r r' d, x = c :: r /\ x = r' ++ [d]
                   /\ is_space c = false /\ is_space d = false.
Proof.
  destruct x as [|c r]; [now left|]. intros H. right.
  unfold trimmed in H. apply andb_true_iff in H as [Hc Hd].
  apply negb_true_iff in Hc, Hd.
  exists c, r, (removelast (c :: r)), (last (c :: r) c).
  repeat split; auto.
  apply app_removelast_last. discriminate.
Qed.

(** The characterisation of [str.strip]: it removes a white-space prefix and
    a white-space suffix and leaves a string with no white space at either
    end. *)
Lemma strip_spec (ws1 x ws2 : pystr) :
  all_space ws1 = true -> all_space ws2 = true -> trimmed x = true ->
  strip (ws1 ++ x ++ ws2) = x.
Proof.
  intros H1 H2 Hx. unfold strip. rewrite lstrip_app_space by exact H1.
  destruct (trimmed_elim x Hx) as [->|(c & r & r' & d & E1 & E2 & Hc & Hd)].
  - simpl. now rewrite lstrip_all_space.
  - assert (El : lstrip (x ++ ws2) = x ++ ws2)
      by (rewrite E1; simpl; now rewrite Hc).
    rewrite El, rstrip_app_space by exact H2.
    rewrite E2. now apply rstrip_snoc_nonspace.
Qed.

Lemma strip_decomp (s : pystr) :
  exists ws1 ws2, all_space ws1 = true /\ all_space ws2 = true
                  /\ s = ws1 ++ strip s ++ ws2.
Proof.
  destruct (lstrip_decomp s) as [ws1 [H1 E1]].
  destruct (rstrip_decomp (lstrip s)) as [ws2 [H2 E2]].
  exists ws1, ws2. repeat split; auto.
  unfold strip. now rewrite <- E2.
Qed.

Lemma strip_trimmed (s : pystr) : trimmed (strip s) = true.
Proof.
  unfold strip. destruct (lstrip s) as [|a t] eqn:E; [reflexivity|].
  pose proof (lstrip_head _ _ _ E) as Ha.
  rewrite rstrip_cons_nonspace by exact Ha.
  assert (Hne : a :: rstrip t <> []) by discriminate.
  pose proof (app_removelast_last a Hne) as E2.
  eapply trimmed_intro; [reflexivity|exact E2|exact Ha|].
  apply (rstrip_last (a :: t) (removelast (a :: rstrip t))).
  rewrite rstrip_cons_nonspace by exact Ha. exact E2.
Qed.

Lemma strip_fixed (x : pystr) : trimmed x = true -> strip x = x.
Proof.
  intros H. rewrite <- (strip_spec [] x []) at 2; auto.
  now rewrite app_nil_r.
Qed.

Lemma strip_idempotent (s : pystr) : strip (strip s) = strip s.
Proof. apply strip_fixed, strip_trimmed. Qed.

(** [str.upper] leaves white space alone and never creates any at the ends,
    so it commutes with [str.strip]. *)
Lemma upper_all_space (ws : pystr) : all_space ws = true -> upper ws = ws.
Proof.
  induction ws as [|c ws IH]; [reflexivity|]. simpl.
  intros H. apply andb_true_iff in H as [Hc Hws].
  change (upper (c :: ws)) with (to_upper_full c ++ upper ws).
  rewrite to_upper_full_space by exact Hc. simpl. f_equal. auto.
Qed.

Lemma upper_trimmed (x : pystr) : trimmed x = true -> trimmed (upper x) = true.
Proof.
  intros Hx.
  destruct (trimmed_elim x Hx) as [->|(c & r & r' & d & E1 & E2 & Hc & Hd)];
    [reflexivity|].
  destruct (to_upper_full_nonspace c Hc) as [Hne Hall].
  destruct (to_upper_full_nonspace d Hd) as [Hne' Hall'].
  destruct (to_upper_full c) as [|c1 cs] eqn:Ec; [contradiction|].
  pose proof (app_removelast_last c1 Hne') as Ed.
  simpl in Hall. apply andb_true_iff in Hall as [Hc1 _].
  apply negb_true_iff in Hc1.
  rewrite forallb_forall in Hall'.
  assert (Hl : is_space (last (to_upper_full d) c1) = false).
  { apply negb_true_iff, Hall'. rewrite Ed at 2.
    apply in_or_app. right. now left. }
  eapply trimmed_intro; [| |exact Hc1|exact Hl].
  - rewrite E1. change (upper (c :: r)) with (to_upper_full c ++ upper r).
    rewrite Ec. reflexivity.
  - rewrite E2, upper_app. simpl upper at 2. rewrite app_nil_r.
    rewrite Ed at 1. now rewrite app_assoc.
Qed.

Lemma strip_upper (s : pystr) : strip (upper s) = upper (strip s).
Proof.
  destruct (strip_decomp s) as (ws1 & ws2 & H1 & H2 & E).
  rewrite E at 1. rewrite !upper_app.
  rewrite (upper_all_space ws1), (upper_all_space ws2) by assumption.
  apply strip_spec; auto. apply upper_trimmed, strip_trimmed.
Qed.

End StripFacts.

(** * The classification of a vote token *)

Section Classification.

Lemma str_eqb_eq (s t : pystr) : str_eqb s t = true <-> s = t.
Proof.
  revert t. induction s as [|c s IH]; intros [|d t]; simpl;
    try (split; [discriminate|discriminate]); [tauto|].
  rewrite andb_true_iff, N.eqb_eq, IH.
  split; [intros [-> ->]; reflexivity|intros [= -> ->]; auto].
Qed.

Lemma str_in_In (s : pystr) (l : list pystr) : str_in s l = true <-> In s l.
Proof.
  unfold str_in. rewrite existsb_exists. split.
  - intros [t [Ht E]]. apply str_eqb_eq in E. now subst.
  - intros H. exists s. split; [exact H|]. now apply str_eqb_eq.
Qed.

Lemma str_in_not_In (s : pystr) (l : list pystr) :
  str_in s l = false <-> ~ In s l.
Proof.
  rewrite <- str_in_In. destruct (str_in s l); split; intros H;
    try discriminate; try reflexivity; try (exfalso; now apply H).
Qed.

(** The normalised token the table is matched against. *)
Lemma categorize_result_normalized (s : pystr) :
  categorize_result s = categorize_result (upper (strip s)).
Proof.
  unfold categorize_result.
  now rewrite strip_upper, strip_idempotent, upper_idempotent.
Qed.

End Classification.

Ltac literal_clash :=
  match goal with
  | H : _ = _ |- _ => solve [vm_compute in H; discriminate H]
  end.

(** C2.  The classification is an exact-match table over the token stripped
    and uppercased: ['yes'] exactly for "SI" and "SI +++", ['no'] exactly
    for "NO" and "NO ---", ['abs'] exactly for "ABST" and "ABSTENCIÓN", and
    ['others'] for every other string; in particular "LP" and "aus" are
    ['others']. *)
Theorem categorize_result_exact_match (s : pystr) :
  let n := upper (strip s) in
  (categorize_result s = utf8 "yes" <-> n = utf8 "SI" \/ n = utf8 "SI +++")
  /\ (categorize_result s = utf8 "no"
      <-> n = utf8 "NO" \/ n = utf8 "NO ---")
  /\ (categorize_result s = utf8 "abs"
      <-> n = utf8 "ABST" \/ n = utf8 "ABSTENCIÓN")
  /\ (categorize_result s = utf8 "others"
      <-> ~ In n [utf8 "SI"; utf8 "SI +++"; utf8 "NO"; utf8 "NO ---";
                  utf8 "ABST"; utf8 "ABSTENCIÓN"])
  /\ categorize_result (utf8 "LP") = utf8 "others"
  /\ categorize_result (utf8 "aus") = utf8 "others".
Proof.
  intros n. unfold categorize_result. fold n. clearbody n.
  destruct (str_in n [utf8 "SI"; utf8 "SI +++"]) eqn:Hy;
    [apply str_in_In in Hy|apply str_in_not_In in Hy];
    [|destruct (str_in n [utf8 "NO"; utf8 "NO ---"]) eqn:Hn;
      [apply str_in_In in Hn|apply str_in_not_In in Hn];
      [|destruct (str_in n [utf8 "ABST"; utf8 "ABSTENCIÓN"]) eqn:Ha;
        [apply str_in_In in Ha|apply str_in_not_In in Ha]]];
    cbn [In] in *;
    (repeat split; try (vm_compute; reflexivity);
     intros; repeat match goal with
                    | H : _ \/ _ |- _ => destruct H
                    | H : False |- _ => destruct H
                    end;
     subst; try literal_clash; try tauto).
Qed.

(** C3.  The classification is insensitive to case and to white space at the
    ends: a token classifies as its stripped uppercase does (whichever of
    the two is applied first), and " si +++ " classifies as "SI +++". *)
Theorem categorize_result_case_space_insensitive (s : pystr) :
  categorize_result s = categorize_result (upper (strip s))
  /\ categorize_result s = categorize_result (strip (upper s))
  /\ categorize_result (utf8 " si +++ ") = categorize_result (utf8 "SI +++").
Proof.
  split; [apply categorize_result_normalized|].
  split; [|vm_compute; reflexivity].
  rewrite strip_upper. apply categorize_result_normalized.
Qed.

(** * Facts about slicing, indexing, [split] and [join] *)

Section SequenceFacts.
Context {A : Type}.

Lemma ends_decomp (l : list A) :
  (2 <= length l)%nat -> exists a m b, l = a :: m ++ [b].
Proof.
  destruct l as [|a l]; simpl; [lia|]. intros H.
  assert (Hne : l <> []) by (destruct l; simpl in H; [lia|discriminate]).
  destruct (exists_last Hne) as [m [b ->]]. now exists a, m, b.
Qed.

Lemma getslice_inner (a b : A) (m : list A) :
  getslice (a :: m ++ [b]) 1 (-1) = m.
Proof.
  unfold getslice, slice_bound.
  replace (length (a :: m ++ [b])) with (S (S (length m)))
    by (simpl; rewrite length_app; simpl; lia).
  change (1 <? 0)%Z with false. change (-1 <? 0)%Z with true. cbv iota.
  replace (Z.to_nat (Z.min 1 (Z.of_nat (S (S (length m)))))) with 1%nat
    by lia.
  replace (Z.to_nat (Z.max 0 (-1 + Z.of_nat (S (S (length m))))
                     - Z.min 1 (Z.of_nat (S (S (length m))))))
    with (length m) by lia.
  simpl skipn. rewrite firstn_app, firstn_all, Nat.sub_diag. simpl.
  apply app_nil_r.
Qed.

(** [l[1:-1]] drops the first and the last element, whatever the length. *)
Lemma getslice_1_m1 (l : list A) : getslice l 1 (-1) = removelast (tl l).
Proof.
  destruct l as [|a [|b l]]; [reflexivity|reflexivity|].
  destruct (ends_decomp (a :: b :: l)) as (a' & m & b' & E); [simpl; lia|].
  rewrite E, getslice_inner. simpl tl. now rewrite removelast_last.
Qed.

Lemma getitem_first (l : list A) (d : A) :
  l <> [] -> getitem l 0 = Ok (hd d l).
Proof.
  destruct l as [|a l]; [contradiction|]. intros _.
  unfold getitem. change (0 <? 0)%Z with false. cbv iota.
  replace (Z.of_nat (length (a :: l)) <=? 0)%Z with false
    by (symmetry; apply Z.leb_gt; simpl length; lia).
  reflexivity.
Qed.

Lemma getitem_last (l : list A) (d : A) :
  l <> [] -> getitem l (-1) = Ok (last l d).
Proof.
  intros Hne. destruct (exists_last Hne) as [m [b ->]].
  rewrite last_last. unfold getitem.
  change (-1 <? 0)%Z with true. cbv iota.
  rewrite length_app. simpl length.
  replace (-1 + Z.of_nat (length m + 1))%Z with (Z.of_nat (length m))
    by lia.
  replace (Z.of_nat (length m) <? 0)%Z with false
    by (symmetry; apply Z.ltb_ge; lia).
  replace (Z.of_nat (length m + 1) <=? Z.of_nat (length m))%Z with false
    by (symmetry; apply Z.leb_gt; lia).
  simpl orb. cbv iota. rewrite Nat2Z.id.
  rewrite nth_error_app2, Nat.sub_diag by lia. reflexivity.
Qed.

End SequenceFacts.

Section SplitJoinFacts.
Variable sep : char.

Lemma split_not_nil (s : pystr) : split sep s <> [].
Proof.
  destruct s as [|c s]; simpl; [discriminate|].
  destruct (c =? sep)%N; [discriminate|].
  destruct (split sep s); discriminate.
Qed.

(** Joining the pieces with the separator gives the string back. *)
Lemma join_split (s : pystr) : join [sep] (split sep s) = s.
Proof.
  induction s as [|c s IH]; [reflexivity|]. simpl.
  pose proof (split_not_nil s) as Hne.
  destruct (N.eqb_spec c sep) as [->|Hc].
  - destruct (split sep s) as [|p ps]; [contradiction|].
    simpl in *. now rewrite IH.
  - destruct (split sep s) as [|p [|q ps]]; [contradiction| |].
    + simpl in *. now rewrite IH.
    + simpl in *. now rewrite IH.
Qed.

Lemma split_sep_free (s : pystr) :
  Forall (fun p => sep_free sep p = true) (split sep s).
Proof.
  induction s as [|c s IH]; simpl.
  - now repeat constructor.
  - destruct (N.eqb_spec c sep) as [->|Hc].
    + now constructor.
    + pose proof (split_not_nil s) as Hne.
      destruct (split sep s) as [|p ps]; [contradiction|].
      inversion IH as [|? ? Hp Hps]; subst. constructor; [|exact Hps].
      simpl. rewrite Hp. apply N.eqb_neq in Hc. now rewrite Hc.
Qed.

Lemma split_free_app (p s : pystr) :
  sep_free sep p = true -> split sep (p ++ sep :: s) = p :: split sep s.
Proof.
  induction p as [|c p IH]; simpl.
  - now rewrite N.eqb_refl.
  - intros H. apply andb_true_iff in H as [Hc Hp].
    apply negb_true_iff in Hc. rewrite Hc, IH by exact Hp. reflexivity.
Qed.

Lemma split_free (p : pystr) : sep_free sep p = true -> split sep p = [p].
Proof.
  induction p as [|c p IH]; simpl; [reflexivity|].
  intros H. apply andb_true_iff in H as [Hc Hp].
  apply negb_true_iff in Hc. rewrite Hc, IH by exact Hp. reflexivity.
Qed.

(** Splitting a separator-joined list of separator-free tokens gives the
    tokens back. *)
Lemma split_join (toks : list pystr) :
  toks <> [] -> Forall (fun p => sep_free sep p = true) toks ->
  split sep (join [sep] toks) = toks.
Proof.
  induction toks as [|p [|q toks] IH]; [contradiction| |]; intros _ H.
  - inversion H; subst. simpl. now apply split_free.
  - inversion H as [|? ? Hp Hrest]; subst.
    change (join [sep] (p :: q :: toks))
      with (p ++ sep :: join [sep] (q :: toks)).
    rewrite split_free_app by exact Hp. f_equal.
    apply IH; [discriminate|exact Hrest].
Qed.

End SplitJoinFacts.

(** * The parser *)

Section Parser.

Lemma startswith_bracket_nonempty (l : pystr) :
  startswith l (utf8 "[") = true -> l <> [].
Proof. intros H ->. discriminate H. Qed.

Lemma tokens_not_nil (line : pystr) : tokens line <> [].
Proof.
  unfold tokens. intros E. apply map_eq_nil in E.
  exact (split_not_nil _ _ E).
Qed.

(** One iteration of the loop appends the record of an accepted line and
    leaves [data] alone otherwise; it does not raise. *)
Lemma loop_body_spec (data : list record) (line : pystr) :
  loop_body data line
  = Ok (if accepted line then data ++ [record_of line] else data).
Proof.
  unfold loop_body, accepted, bracketed, record_of.
  rewrite !getslice_1_m1. fold (tokens line).
  destruct (startswith (strip line) (utf8 "[")) eqn:Hs;
    [|now rewrite andb_false_r].
  pose proof (startswith_bracket_nonempty _ Hs) as Hne.
  replace (str_eqb (strip line) []) with false
    by (destruct (strip line); [contradiction|reflexivity]).
  cbn [negb andb].
  destruct (endswith (strip line) (utf8 "]")); [|reflexivity].
  destruct (3 <=? length (tokens line))%nat; [|reflexivity].
  rewrite (getitem_first (tokens line) ([] : pystr) (tokens_not_nil line)).
  rewrite (getitem_last (tokens line) ([] : pystr) (tokens_not_nil line)).
  reflexivity.
Qed.

Lemma for_lines_spec (file : list pystr) (data : list record) :
  for_lines data file = Ok (data ++ parse_lines file).
Proof.
  unfold parse_lines. revert data.
  induction file as [|line file IH]; intros data; simpl.
  - now rewrite app_nil_r.
  - rewrite loop_body_spec. simpl. rewrite IH.
    destruct (accepted line); [|reflexivity].
    simpl. now rewrite <- app_assoc.
Qed.

Lemma read_voting_data_spec (file : list pystr) :
  read_voting_data file = Ok (parse_lines file).
Proof. unfold read_voting_data. now rewrite for_lines_spec. Qed.

Lemma parse_lines_app (pre post : list pystr) :
  parse_lines (pre ++ post) = parse_lines pre ++ parse_lines post.
Proof. unfold parse_lines. now rewrite filter_app, map_app. Qed.

Lemma parse_lines_skip (pre post : list pystr) (line : pystr) :
  accepted line = false ->
  parse_lines (pre ++ line :: post) = parse_lines (pre ++ post).
Proof.
  intros H. rewrite !parse_lines_app. f_equal.
  unfold parse_lines. simpl. now rewrite H.
Qed.

Lemma parse_lines_length (file : list pystr) :
  (length (parse_lines file) <= length file)%nat.
Proof.
  unfold parse_lines. rewrite length_map. apply filter_length_le.
Qed.

(** The record of a line whose tokens are a group, middle tokens and a vote
    token. *)
Lemma record_of_tokens (line g t : pystr) (mid : list pystr) :
  tokens line = g :: mid ++ [t] ->
  record_of line
  = mk_record g (join (utf8 ", ") mid) (categorize_result t).
Proof.
  intros E. unfold record_of. rewrite E. simpl hd. simpl tl.
  rewrite removelast_last.
  change (g :: mid ++ [t]) with ((g :: mid) ++ [t]).
  now rewrite last_last.
Qed.

Lemma tokens_length3 (line g t : pystr) (mid : list pystr) :
  tokens line = g :: mid ++ [t] -> mid <> [] ->
  (3 <=? length (tokens line))%nat = true.
Proof.
  intros E Hmid. rewrite E. apply Nat.leb_le.
  destruct mid; [contradiction|]. simpl. rewrite length_app. simpl. lia.
Qed.

End Parser.

(** C1.  A line whose trimmed form is bracket-delimited and whose trimmed
    comma-separated tokens are a first token, at least one middle token and
    a last token yields exactly one record: the group is the first token,
    the name is the middle tokens rejoined with a comma and a space, and the
    result is the category of the last token. *)
Theorem well_formed_line_one_record
    (line g t : pystr) (mid : list pystr) :
  startswith (strip line) (utf8 "[") = true ->
  endswith (strip line) (utf8 "]") = true ->
  map strip (split comma (getslice (strip line) 1 (-1))) = g :: mid ++ [t] ->
  mid <> [] ->
  read_voting_data [line]
  = Ok [mk_record g (join (utf8 ", ") mid) (categorize_result t)].
Proof.
  intros Hs He Htok Hmid. rewrite getslice_1_m1 in Htok.
  fold (tokens line) in Htok.
  rewrite read_voting_data_spec. unfold parse_lines. simpl.
  unfold accepted, bracketed.
  rewrite Hs, He, (tokens_length3 _ _ _ _ Htok Hmid). simpl.
  now rewrite (record_of_tokens _ _ _ _ Htok).
Qed.

Lemma well_formed_line_one_record_witness :
  read_voting_data [utf8 "[APP, ACUÑA PERALTA, MARÍA GRIMANEZA, SI +++]"]
  = Ok [mk_record (utf8 "APP") (utf8 "ACUÑA PERALTA, MARÍA GRIMANEZA")
                  (utf8 "yes")].
Proof.
  apply (well_formed_line_one_record
           (utf8 "[APP, ACUÑA PERALTA, MARÍA GRIMANEZA, SI +++]")
           (utf8 "APP") (utf8 "SI +++")
           [utf8 "ACUÑA PERALTA"; utf8 "MARÍA GRIMANEZA"]);
    [reflexivity|reflexivity|vm_compute; reflexivity|discriminate].
Defined.

(** C4.  A line whose trimmed form does not both start with an opening and
    end with a closing bracket gives no record and no error: alone it parses
    to nothing, and among other lines it can be deleted without changing the
    outcome. *)
Theorem unbracketed_line_no_record (line : pystr) :
  startswith (strip line) (utf8 "[") && endswith (strip line) (utf8 "]")
  = false ->
  read_voting_data [line] = Ok []
  /\ forall pre post,
       read_voting_data (pre ++ line :: post) = read_voting_data (pre ++ post).
Proof.
  intros H.
  assert (Hacc : accepted line = false)
    by (unfold accepted, bracketed; now rewrite H).
  split.
  - rewrite read_voting_data_spec. unfold parse_lines. simpl.
    now rewrite Hacc.
  - intros pre post. rewrite !read_voting_data_spec.
    now rewrite parse_lines_skip.
Qed.

Lemma unbracketed_line_no_record_witness :
  read_voting_data [utf8 "APP, ACUÑA PERALTA, MARÍA GRIMANEZA, SI +++"] = Ok []
  /\ forall pre post,
       read_voting_data
         (pre ++ utf8 "APP, ACUÑA PERALTA, MARÍA GRIMANEZA, SI +++" :: post)
       = read_voting_data (pre ++ post).
Proof.
  apply unbracketed_line_no_record. reflexivity.
Defined.

(** C5.  A bracket-delimited line whose content between the brackets splits
    on commas into fewer than three tokens gives no record and no error. *)
Theorem short_line_no_record (line : pystr) :
  startswith (strip line) (utf8 "[") = true ->
  endswith (strip line) (utf8 "]") = true ->
  (length (split comma (getslice (strip line) 1 (-1))) < 3)%nat ->
  read_voting_data [line] = Ok []
  /\ forall pre post,
       read_voting_data (pre ++ line :: post) = read_voting_data (pre ++ post).
Proof.
  intros _ _ Hlen. rewrite getslice_1_m1 in Hlen.
  assert (Hacc : accepted line = false).
  { unfold accepted, tokens. rewrite length_map.
    apply andb_false_iff. right. apply Nat.leb_gt. exact Hlen. }
  split.
  - rewrite read_voting_data_spec. unfold parse_lines. simpl.
    now rewrite Hacc.
  - intros pre post. rewrite !read_voting_data_spec.
    now rewrite parse_lines_skip.
Qed.

Lemma short_line_no_record_witness :
  read_voting_data [utf8 "[APP, SI +++]"] = Ok []
  /\ forall pre post,
       read_voting_data (pre ++ utf8 "[APP, SI +++]" :: post)
       = read_voting_data (pre ++ post).
Proof.
  apply short_line_no_record; [reflexivity|reflexivity|].
  vm_compute. repeat constructor.
Defined.

(** C6.  Parsing never raises: on every sequence of lines
    [read_voting_data] returns a sequence of records, with at most one
    record per line. *)
Theorem read_voting_data_never_raises (file : list pystr) :
  exists data,
    read_voting_data file = Ok data /\ (length data <= length file)%nat.
Proof.
  exists (parse_lines file). split.
  - apply read_voting_data_spec.
  - apply parse_lines_length.
Qed.

(** C9.  The parser is an order-preserving filter-map: its records are the
    records of the accepted lines, one for each, in the order of the
    lines. *)
Theorem read_voting_data_filter_map (file : list pystr) :
  read_voting_data file = Ok (map record_of (filter accepted file)).
Proof. apply read_voting_data_spec. Qed.

(** * The fields of a record *)

Section Fields.

Lemma bracketed_shape (l : pystr) :
  bracketed l = true ->
  l = utf8 "[" ++ removelast (tl l) ++ utf8 "]".
Proof.
  unfold bracketed, startswith, endswith. intros H.
  apply andb_true_iff in H as [Hs He].
  destruct l as [|c x]; [discriminate|].
  simpl in Hs. apply andb_true_iff in Hs as [Hc _]. apply N.eqb_eq in Hc.
  subst c. simpl tl.
  destruct x as [|d x'] using rev_ind; [discriminate|].
  clear IHx'. rewrite removelast_last.
  change (rev (utf8 "]")) with [93%N] in He.
  change (rev (91%N :: x' ++ [d])) with (rev (x' ++ [d]) ++ [91%N]) in He.
  rewrite rev_app_distr in He. simpl in He.
  apply andb_true_iff in He as [Hd _]. apply N.eqb_eq in Hd. now subst d.
Qed.

(** What an accepted line looks like and what its record holds, in terms of
    the raw comma-separated pieces between the brackets. *)
Lemma accepted_record (line : pystr) (r : record) :
  read_voting_data [line] = Ok [r] ->
  exists g mid t,
    split comma (removelast (tl (strip line))) = g :: mid ++ [t]
    /\ mid <> []
    /\ bracketed (strip line) = true
    /\ r = mk_record (strip g) (join (utf8 ", ") (map strip mid))
                     (categorize_result (strip t)).
Proof.
  rewrite read_voting_data_spec. unfold parse_lines. simpl.
  destruct (accepted line) eqn:Hacc; [|discriminate].
  simpl. intros [= <-].
  unfold accepted in Hacc. apply andb_true_iff in Hacc as [Hb Hlen].
  apply Nat.leb_le in Hlen. unfold tokens in Hlen. rewrite length_map in Hlen.
  destruct (ends_decomp (split comma (removelast (tl (strip line)))))
    as (g & mid & t & E); [lia|].
  exists g, mid, t. repeat split; auto.
  - intros ->. rewrite E in Hlen. simpl in Hlen. lia.
  - apply record_of_tokens. unfold tokens. rewrite E. simpl.
    now rewrite map_app.
Qed.

Lemma strip_nil_iff (x : pystr) : strip x = [] <-> all_space x = true.
Proof.
  split.
  - intros E. destruct (strip_decomp x) as (ws1 & ws2 & H1 & H2 & Ex).
    rewrite E in Ex. rewrite Ex. simpl. rewrite all_space_app.
    now rewrite H1, H2.
  - intros H. rewrite <- (app_nil_r x). now apply (strip_spec x [] []).
Qed.

Lemma strip_not_nil_iff (x : pystr) : strip x <> [] <-> all_space x = false.
Proof.
  rewrite strip_nil_iff. destruct (all_space x); split; intros H;
    try discriminate; try reflexivity; exfalso; now apply H.
Qed.

End Fields.

(** C7, as the code has it.  The parser does not check that the group and
    the name are non-empty: the group of a record is non-empty exactly when
    the first piece of the line holds a character that is not white space,
    and its name exactly when the line has two or more middle pieces or its
    middle piece holds such a character. *)
Theorem record_fields_nonempty_iff (line : pystr) (r : record) :
  read_voting_data [line] = Ok [r] ->
  exists g mid t,
    split comma (getslice (strip line) 1 (-1)) = g :: mid ++ [t]
    /\ mid <> []
    /\ (team r <> [] <-> all_space g = false)
    /\ (name r <> []
        <-> (2 <= length mid)%nat
            \/ exists m, In m mid /\ all_space m = false).
Proof.
  intros H. destruct (accepted_record _ _ H) as (g & mid & t & E & Hm & _ & ->).
  exists g, mid, t. rewrite getslice_1_m1. repeat split; auto.
  - simpl. apply strip_not_nil_iff.
  - simpl. apply strip_not_nil_iff.
  - simpl. destruct mid as [|m [|m' mid]]; [contradiction| |].
    + intros Hn. right. exists m. split; [now left|].
      now apply strip_not_nil_iff.
    + intros _. left. simpl. lia.
  - simpl. destruct mid as [|m [|m' mid]]; [contradiction| |].
    + intros [Hlen|[m0 [[<-|[]] Hsp]]]; [simpl in Hlen; lia|].
      now apply strip_not_nil_iff.
    + intros _ Hn.
      change (join (utf8 ", ") (map strip (m :: m' :: mid)))
        with (strip m ++ utf8 ", " ++ join (utf8 ", ") (map strip (m' :: mid)))
        in Hn.
      apply app_eq_nil in Hn as [_ Hn]. discriminate Hn.
Qed.

Lemma record_fields_nonempty_iff_witness :
  exists g mid t,
    split comma (getslice (strip (utf8 "[APP, ACUÑA, MARÍA, SI]")) 1 (-1))
    = g :: mid ++ [t]
    /\ mid <> []
    /\ (utf8 "APP" <> [] <-> all_space g = false)
    /\ (utf8 "ACUÑA, MARÍA" <> []
        <-> (2 <= length mid)%nat
            \/ exists m, In m mid /\ all_space m = false).
Proof.
  apply (record_fields_nonempty_iff
           (utf8 "[APP, ACUÑA, MARÍA, SI]")
           (mk_record (utf8 "APP") (utf8 "ACUÑA, MARÍA") (utf8 "yes"))).
  vm_compute. reflexivity.
Defined.

(** C7, as the specification has it, fails: the line [[, , SI]] is accepted
    and its record has an empty group and an empty name. *)
Lemma record_fields_nonempty_counterexample :
  ~ (forall line r,
       read_voting_data [line] = Ok [r] -> team r <> [] /\ name r <> []).
Proof.
  intros H.
  destruct (H (utf8 "[, , SI]") (mk_record [] [] (utf8 "yes")) eq_refl)
    as [Hteam _].
  now apply Hteam.
Qed.

(** C10.  Normalisation touches the vote token only: the trimmed line is
    the bracketed, comma-joined sequence of its raw pieces; the group is
    the first piece trimmed and the name the middle pieces trimmed and
    rejoined with a comma and a space, character for character as they
    stand in the line; the uppercasing of [categorize_result] is applied to
    the last piece alone. *)
Theorem normalization_only_vote_token (line : pystr) (r : record) :
  read_voting_data [line] = Ok [r] ->
  exists g mid t,
    strip line = utf8 "[" ++ join [comma] (g :: mid ++ [t]) ++ utf8 "]"
    /\ mid <> []
    /\ team r = strip g
    /\ name r = join (utf8 ", ") (map strip mid)
    /\ result r = categorize_result t.
Proof.
  intros H.
  destruct (accepted_record _ _ H) as (g & mid & t & E & Hm & Hb & ->).
  exists g, mid, t. repeat split; auto.
  - rewrite <- E, join_split. now apply bracketed_shape.
  - simpl. unfold categorize_result. now rewrite strip_idempotent.
Qed.

Lemma normalization_only_vote_token_witness :
  exists g mid t,
    strip lowercase_line
    = utf8 "[" ++ join [comma] (g :: mid ++ [t]) ++ utf8 "]"
    /\ mid <> []
    /\ team lowercase_record = strip g
    /\ name lowercase_record = join (utf8 ", ") (map strip mid)
    /\ result lowercase_record = categorize_result t.
Proof.
  apply (normalization_only_vote_token lowercase_line lowercase_record).
  vm_compute. reflexivity.
Defined.

(** * Further properties of the parser *)

Section Further.

(** X4.  The line built from comma-free pieces, with any white space
    around the brackets, parses to exactly one record, that of its trimmed
    pieces; brackets inside the line are ordinary characters, so a line that
    holds several bracketed records gives a single record. *)
Lemma bracket_line_record (ws1 ws2 g t : pystr) (mid : list pystr) :
  all_space ws1 = true -> all_space ws2 = true -> mid <> [] ->
  Forall (fun p => sep_free comma p = true) (g :: mid ++ [t]) ->
  read_voting_data
    [ws1 ++ (utf8 "[" ++ join [comma] (g :: mid ++ [t]) ++ utf8 "]") ++ ws2]
  = Ok [mk_record (strip g) (join (utf8 ", ") (map strip mid))
                  (categorize_result t)].
Proof.
  intros H1 H2 Hmid Hfree.
  set (content := join [comma] (g :: mid ++ [t])).
  set (line := ws1 ++ (utf8 "[" ++ content ++ utf8 "]") ++ ws2).
  assert (Hstrip : strip line = utf8 "[" ++ content ++ utf8 "]").
  { apply strip_spec; auto.
    apply (trimmed_intro _ (content ++ utf8 "]") (utf8 "[" ++ content)
                         91%N 93%N); reflexivity. }
  assert (Htok : tokens line
                 = strip g :: map strip mid ++ [strip t]).
  { unfold tokens. rewrite Hstrip.
    change (tl (utf8 "[" ++ content ++ utf8 "]")) with (content ++ [93%N]).
    rewrite removelast_last. unfold content.
    rewrite split_join by (auto; discriminate).
    simpl. now rewrite map_app. }
  assert (Hmid' : map strip mid <> [])
    by (intros E; apply map_eq_nil in E; contradiction).
  rewrite read_voting_data_spec. unfold parse_lines. simpl.
  unfold accepted. rewrite (tokens_length3 _ _ _ _ Htok Hmid'), Hstrip.
  replace (bracketed (utf8 "[" ++ content ++ utf8 "]")) with true.
  - simpl. rewrite (record_of_tokens _ _ _ _ Htok).
    unfold categorize_result. now rewrite strip_idempotent.
  - unfold bracketed, startswith, endswith. symmetry.
    change (utf8 "[" ++ content ++ utf8 "]")
      with (91%N :: content ++ [93%N]).
    simpl rev. rewrite rev_app_distr. reflexivity.
Qed.

(** The result of [categorize_result] is one of the four category names. *)
Lemma categorize_result_range (s : pystr) :
  In (categorize_result s) [utf8 "yes"; utf8 "no"; utf8 "abs"; utf8 "others"].
Proof.
  unfold categorize_result.
  repeat match goal with
         | |- context [if ?b then _ else _] => destruct b
         end; simpl; auto.
Qed.

(** X5.  Whatever the file holds, the result of every record read is one of
    ['yes'], ['no'], ['abs'] and ['others']. *)
Lemma read_voting_data_results (file : list pystr) (data : list record) :
  read_voting_data file = Ok data ->
  Forall (fun r => In (result r)
                      [utf8 "yes"; utf8 "no"; utf8 "abs"; utf8 "others"])
         data.
Proof.
  rewrite read_voting_data_spec. intros [= <-].
  unfold parse_lines. apply Forall_map. apply Forall_forall.
  intros line _. apply categorize_result_range.
Qed.

End Further.

(** * The examples of the specification *)

Section Examples.

Example upper_abstencion : upper (utf8 "abstención") = utf8 "ABSTENCIÓN".
Proof. vm_compute. reflexivity. Qed.

Example upper_sharp_s : upper (utf8 "Straße") = utf8 "STRASSE".
Proof. vm_compute. reflexivity. Qed.

Example categorize_abstencion :
  categorize_result (utf8 " Abstención") = utf8 "abs".
Proof. vm_compute. reflexivity. Qed.

(** A prefix or an extension of a table entry is not matched. *)
Example categorize_prefix :
  categorize_result (utf8 "SI ++") = utf8 "others"
  /\ categorize_result (utf8 "NO ----") = utf8 "others"
  /\ categorize_result (utf8 "ABSTENCION") = utf8 "others".
Proof. vm_compute. repeat split. Qed.

(** The two example lines of the specification, as the file yields them
    (with their line ends), between lines that are skipped. *)
Example read_voting_data_example :
  read_voting_data
    [ utf8 "Resultados:" ++ [10%N];
      utf8 "[APP, ACUÑA PERALTA, MARÍA GRIMANEZA, SI +++]" ++ [10%N];
      [10%N];
      utf8 "[PP, SI]" ++ [10%N];
      utf8 "[PP, CALLE LOBATÓN, DIGNA, LP]" ++ [10%N] ]
  = Ok [ mk_record (utf8 "APP") (utf8 "ACUÑA PERALTA, MARÍA GRIMANEZA")
                   (utf8 "yes");
         mk_record (utf8 "PP") (utf8 "CALLE LOBATÓN, DIGNA")
                   (utf8 "others") ].
Proof. vm_compute. reflexivity. Qed.

End Examples.

(** * More on the parser: white space, concatenation, commas, fields *)

Section ParserExtras.

Lemma strip_padding (ws1 ws2 s : pystr) :
  all_space ws1 = true -> all_space ws2 = true ->
  strip (ws1 ++ s ++ ws2) = strip s.
Proof.
  intros H1 H2.
  destruct (strip_decomp s) as (a & b & Ha & Hb & E).
  rewrite E at 1.
  replace (ws1 ++ (a ++ strip s ++ b) ++ ws2)
    with ((ws1 ++ a) ++ strip s ++ (b ++ ws2))
    by (now rewrite <- !app_assoc).
  apply strip_spec.
  - now rewrite all_space_app, H1, Ha.
  - now rewrite all_space_app, Hb, H2.
  - apply strip_trimmed.
Qed.

(** The parser looks at a line through its stripped form only. *)
Lemma parse_lines_strip_ext (a b : pystr) (pre post : list pystr) :
  strip a = strip b ->
  parse_lines (pre ++ a :: post) = parse_lines (pre ++ b :: post).
Proof.
  intros E. rewrite !parse_lines_app. f_equal.
  unfold parse_lines. simpl.
  assert (Ha : accepted a = accepted b)
    by (unfold accepted, tokens; now rewrite E).
  assert (Hr : record_of a = record_of b)
    by (unfold record_of, tokens; now rewrite E).
  rewrite Ha. destruct (accepted b); simpl; now rewrite ?Hr.
Qed.

Lemma split_length (sep : char) (s : pystr) :
  length (split sep s) = S (count_char sep s).
Proof.
  unfold count_char. induction s as [|c s IH]; [reflexivity|]. simpl.
  rewrite (N.eqb_sym sep c).
  destruct (c =? sep)%N; simpl; [now rewrite IH|].
  pose proof (split_not_nil sep s) as Hne.
  destruct (split sep s); [contradiction|exact IH].
Qed.

Lemma In_parse_lines (file : list pystr) (r : record) :
  In r (parse_lines file) ->
  exists line, In line file /\ accepted line = true /\ r = record_of line.
Proof.
  unfold parse_lines. rewrite in_map_iff.
  intros [line [E H]]. apply filter_In in H as [Hin Hacc].
  now exists line.
Qed.

Lemma sep_free_app (sep : char) (u v : pystr) :
  sep_free sep (u ++ v) = sep_free sep u && sep_free sep v.
Proof. apply forallb_app. Qed.

Lemma strip_sep_free (sep : char) (x : pystr) :
  sep_free sep x = true -> sep_free sep (strip x) = true.
Proof.
  intros H. destruct (strip_decomp x) as (a & b & _ & _ & E).
  rewrite E, !sep_free_app in H.
  apply andb_true_iff in H as [_ H]. now apply andb_true_iff in H as [H _].
Qed.

(** Joining with a comma and a space is joining with a comma the pieces
    that, the first apart, start with a space. *)
Lemma join_comma_space (p : pystr) (ps : list pystr) :
  join (utf8 ", ") (p :: ps) = join [comma] (p :: map (cons 32%N) ps).
Proof.
  revert p. induction ps as [|q ps IH]; intros p; [reflexivity|].
  change (join (utf8 ", ") (p :: q :: ps))
    with (p ++ comma :: 32%N :: join (utf8 ", ") (q :: ps)).
  rewrite IH. simpl map.
  change (join [comma] (p :: (32%N :: q) :: map (cons 32%N) ps))
    with (p ++ comma :: join [comma] ((32%N :: q) :: map (cons 32%N) ps)).
  now destruct (map (cons 32%N) ps).
Qed.

Lemma strip_space_cons (p : pystr) :
  trimmed p = true -> strip (32%N :: p) = p.
Proof.
  intros H. rewrite <- (app_nil_r p) at 1.
  now apply (strip_spec [32%N] p []).
Qed.

(** The pieces of a name come back when the name is split on commas and
    each piece is stripped. *)
Lemma split_name (pieces : list pystr) :
  pieces <> [] ->
  Forall (fun p => trimmed p = true /\ sep_free comma p = true) pieces ->
  map strip (split comma (join (utf8 ", ") pieces)) = pieces.
Proof.
  destruct pieces as [|p ps]; [contradiction|]. intros _ H.
  inversion H as [|? ? [Hp Hpf] Hps]; subst.
  rewrite join_comma_space, split_join.
  - simpl. rewrite strip_fixed by exact Hp. f_equal.
    rewrite map_map. rewrite <- (map_id ps) at 2.
    apply map_ext_in. intros q Hq.
    rewrite Forall_forall in Hps. apply strip_space_cons, Hps, Hq.
  - discriminate.
  - constructor; [exact Hpf|].
    apply Forall_map. eapply Forall_impl; [|exact Hps].
    intros q [_ Hq]. simpl. exact Hq.
Qed.

Lemma tokens_shape (line : pystr) :
  Forall (fun p => trimmed p = true /\ sep_free comma p = true)
         (tokens line).
Proof.
  unfold tokens. apply Forall_map.
  eapply Forall_impl; [|apply split_sep_free].
  intros p Hp. split; [apply strip_trimmed|now apply strip_sep_free].
Qed.

End ParserExtras.

(** X1.  White space around a line is ignored: a line padded with white
    space on either side (indentation, a line end, a carriage return) gives
    the file the same records as the line itself. *)
Theorem line_padding_ignored
    (ws1 ws2 line : pystr) (pre post : list pystr) :
  all_space ws1 = true -> all_space ws2 = true ->
  read_voting_data (pre ++ (ws1 ++ line ++ ws2) :: post)
  = read_voting_data (pre ++ line :: post).
Proof.
  intros H1 H2. rewrite !read_voting_data_spec. f_equal.
  apply parse_lines_strip_ext. now apply strip_padding.
Qed.

Lemma line_padding_ignored_witness :
  read_voting_data
    [(utf8 "  " ++ utf8 "[PP, CALLE LOBATÓN, DIGNA, LP]" ++ [13%N; 10%N])]
  = read_voting_data [utf8 "[PP, CALLE LOBATÓN, DIGNA, LP]"].
Proof.
  apply (line_padding_ignored (utf8 "  ") [13%N; 10%N]
           (utf8 "[PP, CALLE LOBATÓN, DIGNA, LP]") [] []);
    reflexivity.
Defined.

(** X2.  Reading is compositional: the records of two files read one after
    the other are the records of the first followed by the records of the
    second. *)
Theorem read_voting_data_app (file1 file2 : list pystr) :
  read_voting_data (file1 ++ file2)
  = (data1 <- read_voting_data file1 ;;
     data2 <- read_voting_data file2 ;;
     Ok (data1 ++ data2)).
Proof.
  rewrite !read_voting_data_spec. simpl. now rewrite parse_lines_app.
Qed.

(** X3.  A line yields a record exactly when its stripped form is
    bracket-delimited and holds at least two commas between the brackets. *)
Theorem record_iff_two_commas (line : pystr) :
  (exists r, read_voting_data [line] = Ok [r])
  <-> startswith (strip line) (utf8 "[") && endswith (strip line) (utf8 "]")
      = true
      /\ (2 <= count_char comma (getslice (strip line) 1 (-1)))%nat.
Proof.
  rewrite read_voting_data_spec, getslice_1_m1.
  unfold parse_lines. cbn [filter]. unfold accepted, tokens, bracketed.
  rewrite length_map, split_length.
  set (n := count_char comma (removelast (tl (strip line)))).
  destruct (startswith (strip line) (utf8 "[")
            && endswith (strip line) (utf8 "]")); cbn [andb].
  - destruct (Nat.leb_spec 3 (S n)) as [Hle|Hlt]; cbn [map].
    + split; [intros _; split; [reflexivity|lia]|].
      intros _. eexists. reflexivity.
    + split; [intros [r [=]]|intros [_ H]; lia].
  - cbn [map]. split; [intros [r [=]]|intros [[=] _]].
Qed.

Lemma bracket_line_record_witness :
  read_voting_data [two_record_line]
  = Ok [mk_record (utf8 "APP")
                  (utf8 "ACUÑA, MARÍA, SI], [PP, CALLE, DIGNA")
                  (utf8 "no")].
Proof.
  apply (bracket_line_record [] [] (utf8 "APP") (utf8 " NO")
           [utf8 " ACUÑA"; utf8 " MARÍA"; utf8 " SI]"; utf8 " [PP";
            utf8 " CALLE"; utf8 " DIGNA"]);
    [reflexivity|reflexivity|discriminate|vm_compute; repeat constructor].
Defined.

Lemma read_voting_data_results_witness :
  Forall (fun r => In (result r)
                      [utf8 "yes"; utf8 "no"; utf8 "abs"; utf8 "others"])
         [lowercase_record].
Proof.
  apply (read_voting_data_results [lowercase_line]).
  vm_compute. reflexivity.
Defined.

(** X6.  The fields of every record read are trimmed and comma-free pieces
    of its line: the group has no white space at either end and no comma,
    and the name is the comma-and-space join of one or more such pieces,
    which come back when the name is split on commas and each piece is
    stripped. *)
Theorem record_fields_shape
    (file : list pystr) (data : list record) (r : record) :
  read_voting_data file = Ok data -> In r data ->
  trimmed (team r) = true /\ sep_free comma (team r) = true
  /\ exists pieces,
       pieces <> []
       /\ Forall (fun p => trimmed p = true /\ sep_free comma p = true) pieces
       /\ name r = join (utf8 ", ") pieces
       /\ map strip (split comma (name r)) = pieces.
Proof.
  rewrite read_voting_data_spec. intros [= <-] Hin.
  apply In_parse_lines in Hin as (line & _ & Hacc & ->).
  unfold accepted in Hacc. apply andb_true_iff in Hacc as [_ Hlen].
  apply Nat.leb_le in Hlen.
  destruct (ends_decomp (tokens line)) as (g & mid & t & E); [lia|].
  pose proof (tokens_shape line) as Hshape. rewrite E in Hshape.
  inversion Hshape as [|? ? [Hg Hgf] Hrest]; subst.
  apply Forall_app in Hrest as [Hmid _].
  assert (Hne : mid <> [])
    by (intros ->; rewrite E in Hlen; simpl in Hlen; lia).
  rewrite (record_of_tokens _ _ _ _ E). simpl.
  repeat split; auto.
  exists mid. repeat split; auto. now apply split_name.
Qed.

Lemma record_fields_shape_witness :
  trimmed (team lowercase_record) = true
  /\ sep_free comma (team lowercase_record) = true
  /\ exists pieces,
       pieces <> []
       /\ Forall (fun p => trimmed p = true /\ sep_free comma p = true) pieces
       /\ name lowercase_record = join (utf8 ", ") pieces
       /\ map strip (split comma (name lowercase_record)) = pieces.
Proof.
  apply (record_fields_shape [lowercase_line] [lowercase_record]).
  - vm_compute. reflexivity.
  - left. reflexivity.
Defined.

(** * The party name of the table *)

Section PartyDisplay.

Lemma getslice_prefix {A : Type} (l : list A) (k : nat) :
  getslice l 0 (Z.of_nat k) = firstn k l.
Proof.
  unfold getslice, slice_bound.
  change (0 <? 0)%Z with false. cbv iota.
  replace (Z.of_nat k <? 0)%Z with false by (symmetry; apply Z.ltb_ge; lia).
  replace (Z.to_nat (Z.min 0 (Z.of_nat (length l)))) with 0%nat by lia.
  simpl skipn.
  replace (Z.to_nat (Z.min (Z.of_nat k) (Z.of_nat (length l))
                     - Z.min 0 (Z.of_nat (length l))))
    with (Nat.min k (length l)) by lia.
  destruct (Nat.le_ge_cases k (length l)) as [H|H].
  - now rewrite Nat.min_l.
  - rewrite Nat.min_r by exact H. now rewrite !firstn_all2 by lia.
Qed.

End PartyDisplay.

(** X7.  The party name shown in the table never has more than 20
    characters: a name of at most 20 characters is shown as it is, a longer
    one as its first 17 characters followed by three dots. *)
Theorem party_display_length (party : pystr) :
  party_display party
  = (if (length party <=? 20)%nat then party
     else firstn 17 party ++ utf8 "...")
  /\ length (party_display party) = Nat.min (length party) 20.
Proof.
  unfold party_display.
  change (getslice party 0 17) with (getslice party 0 (Z.of_nat 17)).
  rewrite (getslice_prefix party 17).
  destruct (Nat.ltb_spec 20 (length party)) as [Hlong|Hshort].
  - replace (length party <=? 20)%nat with false
      by (symmetry; apply Nat.leb_gt; lia).
    split; [reflexivity|].
    rewrite length_app, firstn_length_le by lia. simpl. lia.
  - replace (length party <=? 20)%nat with true
      by (symmetry; apply Nat.leb_le; lia).
    split; [reflexivity|lia].
Qed.

(** * The text files of the pipeline *)

Section Codec.
Local Open Scope N_scope.

Ltac Zify.zify_post_hook ::= Z.to_euclidean_division_equations.

Ltac decide_bounds :=
  repeat match goal with
         | |- context [N.ltb ?a ?b] =>
             first [ replace (N.ltb a b) with true
                       by (symmetry; apply N.ltb_lt; lia)
                   | replace (N.ltb a b) with false
                       by (symmetry; apply N.ltb_ge; lia) ]
         | |- context [N.leb ?a ?b] =>
             first [ replace (N.leb a b) with true
                       by (symmetry; apply N.leb_le; lia)
                   | replace (N.leb a b) with false
                       by (symmetry; apply N.leb_gt; lia) ]
         end.

Lemma some_inj {A : Type} (a b : A) : Some a = Some b -> a = b.
Proof. congruence. Qed.

(** One code point, encoded and followed by any bytes, decodes to itself
    and leaves those bytes. *)
Lemma decode_one_encode_one (c : char) (bs rest : list N) :
  encode_one c = Some bs -> decode_one (bs ++ rest) = Some (c, rest).
Proof.
  unfold encode_one, between.
  destruct (N.ltb_spec c 0x80) as [H1|H1].
  { intros E; apply some_inj in E; subst bs. cbn [app]. unfold decode_one. decide_bounds.
    reflexivity. }
  destruct (N.ltb_spec c 0x800) as [H2|H2].
  { intros E; apply some_inj in E; subst bs. cbn [app]. unfold decode_one, between. decide_bounds.
    cbn [andb]. cbv iota. do 2 f_equal. lia. }
  destruct (N.ltb_spec c 0x10000) as [H3|H3].
  { destruct (N.leb_spec 0xD800 c) as [H4|H4];
      [destruct (N.leb_spec c 0xDFFF) as [H5|H5]|]; cbn [andb]; cbv iota;
      try discriminate; intros E; apply some_inj in E; subst bs; cbn [app];
      unfold decode_one, between;
      destruct (N.eqb_spec (0xE0 + c / 0x1000) 0xE0) as [E|E];
      destruct (N.eqb_spec (0xE0 + c / 0x1000) 0xED) as [E'|E'];
      decide_bounds; cbn [andb]; cbv iota; do 2 f_equal; lia. }
  destruct (N.ltb_spec c 0x110000) as [H4|H4]; [|discriminate].
  intros E; apply some_inj in E; subst bs. cbn [app]. unfold decode_one, between.
  destruct (N.eqb_spec (0xF0 + c / 0x40000) 0xF0) as [E|E];
    destruct (N.eqb_spec (0xF0 + c / 0x40000) 0xF4) as [E'|E'];
    decide_bounds; cbn [andb]; cbv iota; do 2 f_equal; lia.
Qed.

Lemma encode_one_not_nil (c : char) (bs : list N) :
  encode_one c = Some bs -> bs <> [].
Proof.
  unfold encode_one.
  repeat match goal with
         | |- context [if ?b then _ else _] => destruct b
         end; intros [= <-]; discriminate.
Qed.

(** A decoding step consumes at least one byte. *)
Lemma decode_one_shorter (bs rest : list N) (c : char) :
  decode_one bs = Some (c, rest) -> (length rest < length bs)%nat.
Proof.
  unfold decode_one.
  destruct bs as [|b0 [|b1 [|b2 [|b3 r]]]];
    repeat match goal with
           | |- context [if ?b then _ else _] => destruct b
           end; try discriminate; intros [= _ <-]; simpl; lia.
Qed.

(** Any fuel from the length of the input on gives the same result. *)
Lemma decode_loop_fuel (n m : nat) (bs : list N) :
  (length bs <= n)%nat -> (length bs <= m)%nat ->
  decode_loop n bs = decode_loop m bs.
Proof.
  revert m bs. induction n as [|n IH]; intros m bs Hn Hm.
  - destruct bs; [|simpl in Hn; lia]. now destruct m.
  - destruct bs as [|b r]; [now destruct m|].
    destruct m as [|m]; [simpl in Hm; lia|].
    cbn [decode_loop].
    destruct (decode_one (b :: r)) as [[c rest]|] eqn:E; [|reflexivity].
    apply decode_one_shorter in E.
    rewrite (IH m rest); [reflexivity| |]; simpl in *; lia.
Qed.

Lemma utf_8_decode_step (bs : list N) :
  bs <> [] ->
  utf_8_decode bs
  = match decode_one bs with
    | Some (c, rest) =>
        match utf_8_decode rest with
        | Some s => Some (c :: s)
        | None => None
        end
    | None => None
    end.
Proof.
  destruct bs as [|b r]; [contradiction|]. intros _.
  unfold utf_8_decode. cbn [length decode_loop].
  destruct (decode_one (b :: r)) as [[c rest]|] eqn:E; [|reflexivity].
  apply decode_one_shorter in E.
  rewrite (decode_loop_fuel (length r) (length rest)); [reflexivity| |];
    simpl in *; lia.
Qed.

(** Decoding undoes encoding. *)
Lemma utf_8_decode_encode (s : pystr) (bs : list N) :
  utf_8_encode s = Some bs -> utf_8_decode bs = Some s.
Proof.
  revert bs. induction s as [|c s IH]; intros bs; simpl.
  - now intros [= <-].
  - destruct (encode_one c) as [b1|] eqn:E1; [|discriminate].
    destruct (utf_8_encode s) as [b2|]; [|discriminate].
    intros [= <-].
    rewrite utf_8_decode_step.
    + rewrite (decode_one_encode_one _ _ _ E1), (IH b2 eq_refl).
      reflexivity.
    + intros E. apply app_eq_nil in E as [E _].
      exact (encode_one_not_nil _ _ E1 E).
Qed.

Ltac Zify.zify_post_hook ::= idtac.

End Codec.

Section TextFiles.
Local Open Scope N_scope.

(** Reading undoes the newline translation of writing, for a text without
    carriage returns. *)
Lemma universal_newlines_written (linesep s : pystr) :
  linesep = [10] \/ linesep = [13; 10] ->
  sep_free 13 s = true ->
  universal_newlines (write_newlines linesep s) = s.
Proof.
  intros Hsep. induction s as [|c s IH]; [reflexivity|].
  simpl sep_free. intros H. apply andb_true_iff in H as [Hc Hs].
  apply negb_true_iff in Hc. specialize (IH Hs).
  unfold write_newlines in *. cbn [flat_map].
  destruct (N.eqb_spec c 10) as [->|Hnl].
  - destruct Hsep as [->| ->]; cbn [app universal_newlines N.eqb Pos.eqb];
      now rewrite IH.
  - cbn [app universal_newlines]. rewrite Hc. now rewrite IH.
Qed.

Lemma read_voting_file_spec (content : list N) :
  read_voting_file content
  = match utf_8_decode content with
    | Some text =>
        Returns (parse_lines (iter_lines (universal_newlines text)))
    | None => Raises UnicodeDecodeError
    end.
Proof.
  unfold read_voting_file, open_read.
  destruct (utf_8_decode content); [|reflexivity].
  simpl. now rewrite read_voting_data_spec.
Qed.

Ltac bool_to_prop :=
  repeat match goal with
         | H : (_ && _)%bool = true |- _ =>
             apply andb_true_iff in H; destruct H
         | H : N.leb _ _ = true |- _ => apply N.leb_le in H
         | H : N.ltb _ _ = true |- _ => apply N.ltb_lt in H
         | H : N.ltb _ _ = false |- _ => apply N.ltb_ge in H
         end.

Ltac never_valid_false :=
  unfold never_valid;
  repeat (apply orb_false_iff; split);
  first [apply N.eqb_neq|apply N.leb_gt]; lia.

(** A decoding step consumes a lead byte and the continuation bytes that
    belong to it; an ASCII byte stands alone. *)
Lemma decode_one_shape (bs rest : list N) (c : char) :
  decode_one bs = Some (c, rest) ->
  exists lead conts,
    bs = lead :: conts ++ rest
    /\ never_valid lead = false
    /\ Forall (fun b => 0x80 <= b <= 0xBF) conts
    /\ (conts <> [] <-> 0x80 <= lead).
Proof.
  unfold decode_one, between. destruct bs as [|b0 r0]; [discriminate|].
  destruct (b0 <? 0x80) eqn:H0.
  { intros E. apply some_inj in E.
    apply (f_equal snd) in E. cbn [snd] in E. subst rest.
    exists b0, []. bool_to_prop.
    repeat split; [never_valid_false|constructor|congruence|lia]. }
  destruct ((0xC2 <=? b0) && (b0 <=? 0xDF)) eqn:H1.
  { destruct r0 as [|b1 r1]; [discriminate|].
    destruct ((0x80 <=? b1) && (b1 <=? 0xBF)) eqn:C1; [|discriminate].
    intros E. apply some_inj in E.
    apply (f_equal snd) in E. cbn [snd] in E. subst rest.
    exists b0, [b1]. bool_to_prop.
    repeat split; [never_valid_false|repeat constructor; lia|lia|discriminate]. }
  destruct ((0xE0 <=? b0) && (b0 <=? 0xEF)) eqn:H2.
  { destruct r0 as [|b1 [|b2 r2]]; try discriminate.
    match goal with
    | |- context [if ?cond then _ else _] =>
        destruct cond eqn:C; [|discriminate]
    end.
    intros E. apply some_inj in E.
    apply (f_equal snd) in E. cbn [snd] in E. subst rest.
    exists b0, [b1; b2]. bool_to_prop.
    assert (0x80 <= b1 <= 0xBF)
      by (destruct (b0 =? 0xE0); destruct (b0 =? 0xED); lia).
    repeat split; [never_valid_false|repeat constructor; lia|lia|discriminate]. }
  destruct ((0xF0 <=? b0) && (b0 <=? 0xF4)) eqn:H3; [|discriminate].
  destruct r0 as [|b1 [|b2 [|b3 r3]]]; try discriminate.
  match goal with
  | |- context [if ?cond then _ else _] =>
      destruct cond eqn:C; [|discriminate]
  end.
  intros E. apply some_inj in E.
    apply (f_equal snd) in E. cbn [snd] in E. subst rest.
  exists b0, [b1; b2; b3]. bool_to_prop.
  assert (0x80 <= b1 <= 0xBF)
    by (destruct (b0 =? 0xF0); destruct (b0 =? 0xF4); lia).
  repeat split; [never_valid_false|repeat constructor; lia|lia|discriminate].
Qed.

Lemma decode_loop_valid (n : nat) (bs : list N) (s : pystr) (b : N) :
  decode_loop n bs = Some s -> In b bs -> never_valid b = false.
Proof.
  revert bs s. induction n as [|n IH]; intros bs s.
  - destruct bs; [intros _ []|discriminate].
  - destruct bs as [|b0 r0]; [intros _ []|]. cbn [decode_loop].
    destruct (decode_one (b0 :: r0)) as [[c rest]|] eqn:E; [|discriminate].
    destruct (decode_loop n rest) as [s'|] eqn:E'; [|discriminate].
    intros _ Hin.
    destruct (decode_one_shape _ _ _ E)
      as (lead & conts & Ebs & Hlead & Hconts & _).
    rewrite Ebs in Hin. destruct Hin as [<-|Hin]; [exact Hlead|].
    apply in_app_or in Hin as [Hin|Hin]; [|exact (IH _ _ E' Hin)].
    rewrite Forall_forall in Hconts. specialize (Hconts _ Hin).
    never_valid_false.
Qed.

End TextFiles.

Section TextFilesMore.
Local Open Scope N_scope.

Lemma utf_8_decode_None_raises (content : list N) :
  utf_8_decode content = None ->
  read_voting_file content = Raises UnicodeDecodeError.
Proof. intros H. now rewrite read_voting_file_spec, H. Qed.

Lemma ends_ascii_tail (a y : N) (l : list N) :
  ends_ascii (a :: y :: l) = ends_ascii (y :: l).
Proof. reflexivity. Qed.

(** The continuation bytes of a step that starts before an isolated byte
    end before it. *)
Lemma conts_stop_before (b : N) (post rest conts : list N) :
  forall (lead : N) (pre : list N),
    Forall (fun x => 0x80 <= x <= 0xBF) conts ->
    (conts <> [] -> 0x80 <= lead) ->
    ends_ascii (lead :: pre) = true ->
    conts ++ rest = pre ++ b :: post ->
    exists pre', rest = pre' ++ b :: post /\ ends_ascii pre' = true.
Proof.
  induction conts as [|x conts IH]; intros lead pre Hc Hlead Hend E.
  - exists pre. split; [exact E|].
    destruct pre as [|y pre]; [reflexivity|].
    now rewrite ends_ascii_tail in Hend.
  - assert (0x80 <= lead) by (apply Hlead; discriminate).
    destruct pre as [|y pre].
    + simpl in Hend. apply N.ltb_lt in Hend. lia.
    + inversion E; subst. inversion Hc; subst.
      apply (IH y pre); auto.
      intros _. lia.
Qed.

Lemma decode_loop_isolated (n : nat) (b : N) (post : list N) :
  0x80 <= b -> starts_ascii post = true ->
  forall pre, ends_ascii pre = true ->
              decode_loop n (pre ++ b :: post) = None.
Proof.
  intros Hb Hpost. induction n as [|n IH]; intros pre Hpre.
  - destruct pre; reflexivity.
  - assert (Hstep :
      match decode_one (pre ++ b :: post) with
      | Some (_, rest) => decode_loop n rest = None
      | None => True
      end).
    { destruct (decode_one (pre ++ b :: post)) as [[c rest]|] eqn:E;
        [|exact I].
      destruct (decode_one_shape _ _ _ E)
        as (lead & conts & Ebs & _ & Hconts & Hlead).
      destruct pre as [|p pre].
      - assert (Hl : b = lead /\ post = conts ++ rest)
          by (simpl in Ebs; split; congruence).
        destruct Hl as [<- Hrest].
        assert (Hne : conts <> []) by (apply Hlead; exact Hb).
        destruct conts as [|x conts]; [contradiction|].
        rewrite Hrest in Hpost. simpl in Hpost. apply N.ltb_lt in Hpost.
        inversion Hconts as [|? ? Hx _]. lia.
      - assert (Hl : p = lead /\ conts ++ rest = pre ++ b :: post)
          by (simpl in Ebs; split; congruence).
        destruct Hl as [<- Hrest].
        assert (Hs : exists pre',
                   rest = pre' ++ b :: post /\ ends_ascii pre' = true).
        { apply (conts_stop_before b post rest conts p pre);
            [exact Hconts|apply Hlead|exact Hpre|exact Hrest]. }
        destruct Hs as (pre' & -> & Hpre'). now apply IH. }
    destruct pre as [|p pre]; cbn [app decode_loop] in *;
      destruct (decode_one _) as [[c rest]|]; try reflexivity;
      now rewrite Hstep.
Qed.

Lemma accepted_bom_line (l : pystr) : accepted (0xFEFF :: l) = false.
Proof.
  unfold accepted, strip.
  replace (lstrip (0xFEFF :: l)) with (0xFEFF :: l) by reflexivity.
  rewrite rstrip_cons_nonspace by reflexivity. reflexivity.
Qed.

End TextFilesMore.

(** X8.  What [congreso_test.py] saves, [analyze_voting.py] reads back:
    when the saved text has no carriage return, the lines the reader
    iterates over are the lines of the text, whether the platform writes
    line feeds or carriage return and line feed, and the records read are
    those of these lines. *)
Theorem saved_text_read_back
    (linesep output_content : pystr) (content : list N) :
  linesep = [10%N] \/ linesep = [13%N; 10%N] ->
  sep_free 13%N output_content = true ->
  write_text linesep output_content = Returns content ->
  open_read content = Returns (iter_lines output_content)
  /\ read_voting_file content
     = propagate (read_voting_data (iter_lines output_content)).
Proof.
  intros Hsep Hcr Hw. unfold write_text in Hw.
  destruct (utf_8_encode (write_newlines linesep output_content))
    as [bs|] eqn:E; [|discriminate].
  assert (bs = content) by congruence. subst bs.
  apply utf_8_decode_encode in E.
  assert (Ho : open_read content = Returns (iter_lines output_content)).
  { unfold open_read. rewrite E.
    now rewrite universal_newlines_written. }
  split; [exact Ho|]. unfold read_voting_file. now rewrite Ho.
Qed.

Lemma saved_text_read_back_witness :
  open_read two_lines_crlf_bytes = Returns (iter_lines two_lines_text)
  /\ read_voting_file two_lines_crlf_bytes
     = propagate (read_voting_data (iter_lines two_lines_text)).
Proof.
  apply (saved_text_read_back [13%N; 10%N]);
    [right; reflexivity|vm_compute; reflexivity|vm_compute; reflexivity].
Defined.

(** X9.  A byte-order mark at the start of the file is not removed: it
    stays in front of the first line, which is therefore skipped, and the
    other lines give their records as usual. *)
Theorem byte_order_mark_loses_first_line (content : list N) :
  read_voting_file (utf8_bom ++ content)
  = (file <~ open_read content ;; propagate (read_voting_data (tl file))).
Proof.
  unfold read_voting_file, open_read.
  rewrite utf_8_decode_step by discriminate.
  change (decode_one (utf8_bom ++ content)) with (Some (0xFEFF%N, content)).
  cbv beta iota.
  destruct (utf_8_decode content) as [text|]; [|reflexivity].
  cbn [and_then].
  change (universal_newlines (0xFEFF%N :: text))
    with (0xFEFF%N :: universal_newlines text).
  rewrite !read_voting_data_spec. cbn [propagate]. f_equal.
  cbn [iter_lines N.eqb Pos.eqb].
  destruct (iter_lines (universal_newlines text)) as [|l ls];
    [reflexivity|].
  unfold parse_lines. cbn [filter tl].
  now rewrite accepted_bom_line.
Qed.

(** X10.  A file that holds a byte that no UTF-8 text holds ([0xC0],
    [0xC1], [0xF5] and above, as in the byte-order mark of UTF-16) is not
    parsed at all: reading raises [UnicodeDecodeError]. *)
Theorem never_valid_byte_raises (content : list N) (b : N) :
  In b content -> never_valid b = true ->
  read_voting_file content = Raises UnicodeDecodeError.
Proof.
  intros Hin Hb. apply utf_8_decode_None_raises.
  destruct (utf_8_decode content) as [s|] eqn:E; [|reflexivity].
  pose proof (decode_loop_valid _ _ _ _ E Hin) as H.
  rewrite Hb in H. discriminate.
Qed.

Lemma never_valid_byte_raises_witness :
  read_voting_file ([0xFF; 0xFE] ++ ascii_bytes "[APP, X, Y, SI]")%N
  = Raises UnicodeDecodeError.
Proof.
  apply (never_valid_byte_raises _ 0xFF%N); [left; reflexivity|reflexivity].
Defined.

(** X11.  A file in a one-byte encoding is not parsed either: a byte from
    [0x80] on that stands alone between ASCII bytes (an accented letter of
    Latin-1 between unaccented ones) makes reading raise
    [UnicodeDecodeError]. *)
Theorem isolated_high_byte_raises (pre post : list N) (b : N) :
  (0x80 <= b)%N -> ends_ascii pre = true -> starts_ascii post = true ->
  read_voting_file (pre ++ b :: post) = Raises UnicodeDecodeError.
Proof.
  intros Hb Hpre Hpost. apply utf_8_decode_None_raises.
  unfold utf_8_decode. now apply decode_loop_isolated.
Qed.

Lemma isolated_high_byte_raises_witness :
  read_voting_file latin1_content = Raises UnicodeDecodeError.
Proof.
  apply (isolated_high_byte_raises
           (ascii_bytes "[APP, ACU") (ascii_bytes "A, MARIA, SI]") 0xD1%N);
    [vm_compute; discriminate|reflexivity|reflexivity].
Defined.

(** * The table of [create_charts] *)

Section FrameFacts.

Lemma str_eqb_refl (s : pystr) : str_eqb s s = true.
Proof. now apply str_eqb_eq. Qed.

Lemma str_eqb_neq (s t : pystr) : str_eqb s t = false <-> s <> t.
Proof.
  rewrite <- str_eqb_eq. destruct (str_eqb s t); split; intros H;
    try discriminate; try reflexivity; exfalso; now apply H.
Qed.

Lemma position_In (c : pystr) (l : list pystr) :
  In c l -> exists i, position c l = Some i /\ nth_error l i = Some c.
Proof.
  induction l as [|x l IH]; simpl; [intros []|].
  destruct (str_eqb c x) eqn:E.
  - apply str_eqb_eq in E. subst. intros _. now exists O.
  - apply str_eqb_neq in E. intros [H|H]; [now subst|].
    destruct (IH H) as [i [Hi Hn]]. exists (S i). now rewrite Hi.
Qed.

Lemma position_not_In (c : pystr) (l : list pystr) :
  ~ In c l -> position c l = None.
Proof.
  induction l as [|x l IH]; simpl; [reflexivity|]. intros H.
  destruct (str_eqb c x) eqn:E.
  - apply str_eqb_eq in E. subst. exfalso. apply H. now left.
  - rewrite IH; [reflexivity|]. intros Hin. apply H. now right.
Qed.

(** The order of strings is a strict total order. *)
Lemma str_ltb_irrefl (s : pystr) : str_ltb s s = false.
Proof.
  induction s as [|c s IH]; [reflexivity|]. simpl.
  now rewrite N.ltb_irrefl, N.eqb_refl, IH.
Qed.

Lemma str_ltb_trans (a b c : pystr) :
  str_ltb a b = true -> str_ltb b c = true -> str_ltb a c = true.
Proof.
  revert b c. induction a as [|x a IH]; intros [|y b] [|z c]; simpl;
    try discriminate; try reflexivity.
  intros H1 H2.
  apply orb_true_iff in H1. apply orb_true_iff in H2. apply orb_true_iff.
  destruct H1 as [H1|H1], H2 as [H2|H2];
    rewrite ?andb_true_iff, ?N.ltb_lt, ?N.eqb_eq in *.
  - left. lia.
  - left. destruct H2 as [-> _]. exact H1.
  - left. destruct H1 as [-> _]. exact H2.
  - right. destruct H1 as [-> H1], H2 as [-> H2]. split; [reflexivity|].
    now apply (IH b c).
Qed.

Lemma str_ltb_total (a b : pystr) :
  str_eqb a b = false -> str_ltb a b = false -> str_ltb b a = true.
Proof.
  revert b. induction a as [|x a IH]; intros [|y b]; simpl;
    try discriminate; try reflexivity.
  intros He Hl. apply orb_false_iff in Hl as [Hxy Hl].
  apply N.ltb_ge in Hxy.
  destruct (N.eqb_spec x y) as [->|Hne].
  - simpl in He, Hl. rewrite N.ltb_irrefl, N.eqb_refl. simpl.
    now apply IH.
  - apply orb_true_iff. left. apply N.ltb_lt. lia.
Qed.

Lemma In_insert_sorted (x y : pystr) (l : list pystr) :
  In y (insert_sorted x l) <-> y = x \/ In y l.
Proof.
  induction l as [|z l IH]; simpl; [intuition|].
  destruct (str_eqb x z) eqn:E.
  - apply str_eqb_eq in E. subst. simpl. intuition.
  - destruct (str_ltb x z); simpl; [intuition|].
    rewrite IH. intuition.
Qed.

(** [sorted_unique] keeps the values, drops the repetitions and sorts. *)
Lemma In_sorted_unique (y : pystr) (l : list pystr) :
  In y (sorted_unique l) <-> In y l.
Proof.
  induction l as [|x l IH]; simpl; [tauto|].
  rewrite In_insert_sorted, IH. intuition.
Qed.

Lemma insert_sorted_sorted (x : pystr) (l : list pystr) :
  StronglySorted (fun a b => str_ltb a b = true) l ->
  StronglySorted (fun a b => str_ltb a b = true) (insert_sorted x l).
Proof.
  induction l as [|z l IH]; simpl; intros H.
  - repeat constructor.
  - destruct (str_eqb x z) eqn:E; [exact H|].
    inversion H as [|? ? Hl Hz]; subst.
    destruct (str_ltb x z) eqn:L.
    + constructor; [exact H|]. constructor; [exact L|].
      rewrite Forall_forall in *. intros y Hy.
      apply (str_ltb_trans x z y); auto.
    + constructor; [now apply IH|].
      rewrite Forall_forall in *. intros y Hy.
      apply In_insert_sorted in Hy as [->|Hy]; [|now apply Hz].
      now apply str_ltb_total.
Qed.

Lemma sorted_unique_sorted (l : list pystr) :
  StronglySorted (fun a b => str_ltb a b = true) (sorted_unique l).
Proof.
  induction l as [|x l IH]; simpl; [constructor|].
  now apply insert_sorted_sorted.
Qed.

Lemma NoDup_sorted_unique (l : list pystr) : NoDup (sorted_unique l).
Proof.
  induction (sorted_unique_sorted l) as [|x s Hs IH Hx]; constructor;
    [|exact IH].
  intros Hin. rewrite Forall_forall in Hx. specialize (Hx _ Hin).
  now rewrite str_ltb_irrefl in Hx.
Qed.

End FrameFacts.

Section TableFacts.

Lemma combine_map_const {A B C : Type} (h : A -> B) (g : B * Z -> C)
    (x : Z) (idx : list A) :
  map g (combine (map h idx) (repeat x (length (map h idx))))
  = map (fun r => g (h r, x)) idx.
Proof.
  induction idx as [|a idx IH]; [reflexivity|]. simpl. now rewrite IH.
Qed.

Lemma combine_map_map {A B C : Type} (h : A -> B) (k : A -> Z)
    (g : B * Z -> C) (idx : list A) :
  map g (combine (map h idx) (map k idx)) = map (fun r => g (h r, k r)) idx.
Proof.
  induction idx as [|a idx IH]; [reflexivity|]. simpl. now rewrite IH.
Qed.

(** A fresh column is added at the right of every row. *)
Lemma set_column_fresh (rowf : pystr -> list Z) (k : pystr -> Z)
    (idx cols : list pystr) (c : pystr) :
  ~ In c cols ->
  set_column (table rowf idx cols) c (map k idx)
  = table (fun r => rowf r ++ [k r]) idx (cols ++ [c]).
Proof.
  intros H. unfold set_column, table. cbn [columns rows].
  rewrite (position_not_In _ _ H). f_equal.
  apply (combine_map_map (fun r => (r, rowf r)) k
           (fun rx => (fst (fst rx), snd (fst rx) ++ [snd rx]))).
Qed.

Lemma set_column_const_fresh (rowf : pystr -> list Z)
    (idx cols : list pystr) (c : pystr) (x : Z) :
  ~ In c cols ->
  set_column_const (table rowf idx cols) c x
  = table (fun r => rowf r ++ [x]) idx (cols ++ [c]).
Proof.
  intros H. unfold set_column_const, set_column, table. cbn [columns rows].
  rewrite (position_not_In _ _ H). f_equal.
  apply (combine_map_const (fun r => (r, rowf r))
           (fun rx => (fst (fst rx), snd (fst rx) ++ [snd rx]))).
Qed.

Lemma table_ext (rowf rowg : pystr -> list Z) (idx cols : list pystr) :
  (forall r, In r idx -> rowf r = rowg r) ->
  table rowf idx cols = table rowg idx cols.
Proof.
  intros H. unfold table. f_equal. apply map_ext_in.
  intros r Hr. now rewrite H.
Qed.

(** The loop that adds the missing categories, on a frame whose cells are
    given by [v] and are zero in the columns it has not. *)
Lemma ensure_columns (v : pystr -> pystr -> Z) (idx : list pystr)
    (cats cols : list pystr) :
  (forall r c, In r idx -> ~ In c cols -> v r c = 0%Z) ->
  exists cols',
    fold_left
      (fun f category =>
         if negb (str_in category (columns f))
         then set_column_const f category 0
         else f)
      cats (table (fun r => map (v r) cols) idx cols)
    = table (fun r => map (v r) cols') idx cols'
    /\ incl cols cols' /\ incl cats cols'.
Proof.
  revert cols. induction cats as [|c cats IH]; intros cols Hzero.
  - exists cols. repeat split; [apply incl_refl|intros x []].
  - cbn [fold_left]. cbn [columns table].
    destruct (str_in c cols) eqn:E; cbn [negb].
    + apply str_in_In in E.
      destruct (IH cols Hzero) as (cols' & Hf & Hi & Hc).
      exists cols'. repeat split; auto.
      intros x [<-|Hx]; [now apply Hi|now apply Hc].
    + apply str_in_not_In in E.
      rewrite set_column_const_fresh by exact E.
      rewrite (table_ext _ (fun r => map (v r) (cols ++ [c]))).
      2:{ intros r Hr. rewrite map_app. simpl. now rewrite Hzero. }
      destruct (IH (cols ++ [c])) as (cols' & Hf & Hi & Hc).
      { intros r x Hr Hx. apply Hzero; [exact Hr|].
        intros Hin. apply Hx. apply in_or_app. now left. }
      exists cols'. repeat split; auto.
      * intros x Hx. apply Hi. apply in_or_app. now left.
      * intros x [<-|Hx]; [|now apply Hc].
        apply Hi. apply in_or_app. right. now left.
Qed.

Lemma nth_map_position (v : pystr -> Z) (cols : list pystr) (c : pystr)
    (i : nat) :
  position c cols = Some i -> nth i (map v cols) 0%Z = v c.
Proof.
  revert i. induction cols as [|x cols IH]; intros i; simpl; [discriminate|].
  destruct (str_eqb c x) eqn:E.
  - apply str_eqb_eq in E. subst. now intros [= <-].
  - destruct (position c cols) as [j|]; [|discriminate].
    intros [= <-]. now apply IH.
Qed.

(** Selecting columns that the frame has gives the frame of these columns
    and never raises. *)
Lemma select_columns_table (v : pystr -> pystr -> Z)
    (idx cols cats : list pystr) :
  incl cats cols ->
  select_columns (table (fun r => map (v r) cols) idx cols) cats
  = Returns (table (fun r => map (v r) cats) idx cats).
Proof.
  intros Hincl. unfold select_columns.
  assert (Hps : exists ps,
    map_outcome (column_position (table (fun r => map (v r) cols) idx cols))
                cats = Returns ps
    /\ forall r, map (fun i => nth i (map (v r) cols) 0%Z) ps
                 = map (v r) cats).
  { induction cats as [|c cats IH].
    - now exists [].
    - destruct IH as (ps & Hps & Hnth).
      { intros x Hx. apply Hincl. now right. }
      destruct (position_In c cols) as (i & Hi & _);
        [apply Hincl; now left|].
      exists (i :: ps). split.
      + cbn [map_outcome]. unfold column_position at 1.
        cbn [columns table]. rewrite Hi. cbn [and_then]. now rewrite Hps.
      + intros r. simpl. rewrite Hnth. f_equal.
        now apply nth_map_position. }
  destruct Hps as (ps & -> & Hnth). cbn [and_then]. unfold table.
  cbn [rows]. do 2 f_equal. rewrite map_map. apply map_ext.
  intros r. cbn [fst snd]. now rewrite Hnth.
Qed.

End TableFacts.

Section CountFacts.

Lemma count_pairs_zero (pairs : list (pystr * pystr)) (r c : pystr) :
  ~ In c (map snd pairs) -> count_pairs pairs r c = 0%nat.
Proof.
  unfold count_pairs. induction pairs as [|p pairs IH]; [reflexivity|].
  simpl. intros H.
  destruct (str_eqb (snd p) c) eqn:E.
  - apply str_eqb_eq in E. exfalso. apply H. now left.
  - rewrite andb_false_r. apply IH. intros Hin. apply H. now right.
Qed.

(** The frame of the four categories, in closed form: [vote_by_team] never
    raises. *)
Lemma vote_by_team_closed (df : list record) (top_teams : list pystr) :
  df <> [] ->
  vote_by_team df top_teams
  = Returns
      (table (fun r => map (fun c => Z.of_nat
                                       (count_pairs (top_pairs df top_teams)
                                                    r c))
                           result_categories)
             (sorted_unique (map fst (top_pairs df top_teams)))
             result_categories).
Proof.
  intros Hne. unfold vote_by_team.
  destruct df as [|r0 df0] eqn:Edf; [contradiction|]. rewrite <- Edf.
  fold (top_pairs df top_teams).
  set (pairs := top_pairs df top_teams).
  set (v := fun r c => Z.of_nat (count_pairs pairs r c)).
  change (crosstab pairs)
    with (table (fun r => map (v r) (sorted_unique (map snd pairs)))
                (sorted_unique (map fst pairs))
                (sorted_unique (map snd pairs))).
  destruct (ensure_columns v (sorted_unique (map fst pairs))
              result_categories (sorted_unique (map snd pairs)))
    as (cols' & -> & _ & Hincl).
  { intros r c _ Hc. unfold v. rewrite count_pairs_zero; [reflexivity|].
    intros Hin. apply Hc. now apply In_sorted_unique. }
  now apply select_columns_table.
Qed.

Lemma count_pairs_top (df : list record) (top_teams : list pystr)
    (party c : pystr) :
  str_in party top_teams = true ->
  count_pairs (top_pairs df top_teams) party c = vote_count df party c.
Proof.
  intros Hp. unfold count_pairs, top_pairs, vote_count.
  induction df as [|r df IH]; [reflexivity|]. simpl.
  destruct (str_eqb (team r) party) eqn:E.
  - apply str_eqb_eq in E. rewrite E, Hp. simpl. rewrite E, str_eqb_refl.
    simpl. destruct (str_eqb (result r) c); simpl; now rewrite IH.
  - destruct (str_in (team r) top_teams); simpl; rewrite ?E; simpl;
      exact IH.
Qed.

Lemma In_top_index (df : list record) (top_teams : list pystr)
    (party : pystr) :
  In party (sorted_unique (map fst (top_pairs df top_teams))) ->
  str_in party top_teams = true /\ In party (map team df).
Proof.
  rewrite In_sorted_unique. unfold top_pairs. rewrite map_map. simpl.
  rewrite in_map_iff. intros (r & <- & Hr). apply filter_In in Hr as [Hr Ht].
  split; [exact Ht|]. now apply in_map.
Qed.

(** With results in the four categories only, the four counts of a party
    add up to its size. *)
Lemma vote_count_sum (df : list record) (party : pystr) :
  Forall (fun r => In (result r) result_categories) df ->
  (vote_count df party (utf8 "yes") + vote_count df party (utf8 "no")
   + vote_count df party (utf8 "abs") + vote_count df party (utf8 "others")
   = team_size df party)%nat.
Proof.
  unfold vote_count, team_size.
  induction 1 as [|r df Hr _ IH]; [reflexivity|]. cbn [filter].
  destruct (str_eqb (team r) party); cbn [andb]; [|exact IH].
  destruct Hr as [Hr|[Hr|[Hr|[Hr|[]]]]]; rewrite <- Hr;
    match goal with
    | |- context [str_eqb ?a ?b] =>
        repeat match goal with
               | |- context [str_eqb (utf8 ?x) (utf8 ?y)] =>
                   let b := eval vm_compute in (str_eqb (utf8 x) (utf8 y)) in
                   change (str_eqb (utf8 x) (utf8 y)) with b
               end
    end; cbn [length]; lia.
Qed.

Lemma top_count_sum (df : list record) (top_teams : list pystr) :
  Forall (fun r => In (result r) result_categories) df ->
  (top_count df top_teams (utf8 "yes") + top_count df top_teams (utf8 "no")
   + top_count df top_teams (utf8 "abs")
   + top_count df top_teams (utf8 "others")
   = length (filter (fun r => str_in (team r) top_teams) df))%nat.
Proof.
  unfold top_count.
  induction 1 as [|r df Hr _ IH]; [reflexivity|]. cbn [filter].
  destruct (str_in (team r) top_teams); cbn [andb]; [|exact IH].
  destruct Hr as [Hr|[Hr|[Hr|[Hr|[]]]]]; rewrite <- Hr;
    repeat match goal with
           | |- context [str_eqb (utf8 ?x) (utf8 ?y)] =>
               let b := eval vm_compute in (str_eqb (utf8 x) (utf8 y)) in
               change (str_eqb (utf8 x) (utf8 y)) with b
           end; cbn [length]; lia.
Qed.

End CountFacts.

Section LookupFacts.

Lemma row_of_table (rowf : pystr -> list Z) (idx : list pystr) (r : pystr) :
  In r idx -> row_of r (map (fun x => (x, rowf x)) idx) = Some (rowf r).
Proof.
  induction idx as [|x idx IH]; simpl; [intros []|].
  destruct (str_eqb r x) eqn:E.
  - apply str_eqb_eq in E. now subst.
  - apply str_eqb_neq in E. intros [H|H]; [now subst|]. now apply IH.
Qed.

Lemma row_of_None (l : list (pystr * list Z)) (r : pystr) :
  ~ In r (map fst l) -> row_of r l = None.
Proof.
  induction l as [|[x row] l IH]; simpl; [reflexivity|]. intros H.
  destruct (str_eqb r x) eqn:E.
  - apply str_eqb_eq in E. subst. exfalso. apply H. now left.
  - apply IH. intros Hin. apply H. now right.
Qed.

Lemma row_of_In (l : list (pystr * list Z)) (r : pystr) (row : list Z) :
  NoDup (map fst l) -> In (r, row) l -> row_of r l = Some row.
Proof.
  induction l as [|[x row'] l IH]; simpl; [intros _ []|].
  intros Hnd Hin. inversion Hnd as [|? ? Hx Hl]; subst.
  destruct (str_eqb r x) eqn:E.
  - apply str_eqb_eq in E. subst.
    destruct Hin as [Hin|Hin]; [congruence|].
    exfalso. apply Hx. now apply (in_map fst) in Hin.
  - apply str_eqb_neq in E.
    destruct Hin as [Hin|Hin]; [congruence|]. now apply IH.
Qed.

(** Sorting the rows does not change what a label finds. *)
Lemma row_of_table_perm (rowf : pystr -> list Z) (idx : list pystr)
    (l : list (pystr * list Z)) (r : pystr) :
  NoDup idx -> Permutation l (map (fun x => (x, rowf x)) idx) ->
  In r (map fst l) -> row_of r l = Some (rowf r).
Proof.
  intros Hnd Hp Hin.
  assert (Hfst : map fst (map (fun x => (x, rowf x)) idx) = idx)
    by (rewrite map_map; apply map_id).
  assert (Hpf : Permutation (map fst l) idx)
    by (rewrite <- Hfst; now apply Permutation_map).
  apply row_of_In.
  - apply (Permutation_NoDup (Permutation_sym Hpf) Hnd).
  - apply (Permutation_in _ (Permutation_sym Hp)).
    apply in_map_iff. exists r. split; [reflexivity|].
    now apply (Permutation_in _ Hpf).
Qed.

Lemma sum_list_perm {A : Type} (g : A -> Z) (l l' : list A) :
  Permutation l l' -> sum_list (map g l) = sum_list (map g l').
Proof.
  unfold sum_list. induction 1; simpl; lia.
Qed.

Lemma sum_list_add {A : Type} (g h : A -> Z) (l : list A) :
  sum_list (map (fun a => (g a + h a)%Z) l)
  = (sum_list (map g l) + sum_list (map h l))%Z.
Proof.
  unfold sum_list. induction l as [|a l IH]; simpl; lia.
Qed.

Lemma sum_indicator (idx : list pystr) (x : pystr) (a : Z) :
  NoDup idx -> In x idx ->
  sum_list (map (fun r => if str_eqb x r then a else 0%Z) idx) = a.
Proof.
  unfold sum_list. induction idx as [|y idx IH]; [intros _ []|].
  intros Hnd Hin. inversion Hnd as [|? ? Hy Hl]; subst. simpl.
  destruct (str_eqb x y) eqn:E.
  - apply str_eqb_eq in E. subst.
    assert (Hz : forall l, ~ In y l ->
                fold_right Z.add 0%Z
                  (map (fun r => if str_eqb y r then a else 0%Z) l) = 0%Z).
    { induction l as [|z l IHl]; [reflexivity|]. simpl. intros Hn.
      destruct (str_eqb y z) eqn:Ez.
      - apply str_eqb_eq in Ez. exfalso. apply Hn. now left.
      - rewrite IHl; [reflexivity|]. intros H. apply Hn. now right. }
    rewrite Hz by exact Hy. lia.
  - apply str_eqb_neq in E. destruct Hin as [Hin|Hin]; [congruence|].
    now rewrite IH.
Qed.

(** Summing the counts of a category over the index counts every pair of
    the category once. *)
Lemma sum_count_pairs (pairs : list (pystr * pystr)) (idx : list pystr)
    (c : pystr) :
  NoDup idx -> (forall p, In p pairs -> In (fst p) idx) ->
  sum_list (map (fun r => Z.of_nat (count_pairs pairs r c)) idx)
  = Z.of_nat (length (filter (fun p => str_eqb (snd p) c) pairs)).
Proof.
  intros Hnd. induction pairs as [|p pairs IH]; intros Hin.
  - unfold count_pairs, sum_list. simpl. clear Hnd Hin.
    induction idx as [|y idx IH]; simpl; [reflexivity|exact IH].
  - assert (E : forall r,
      Z.of_nat (count_pairs (p :: pairs) r c)
      = ((if str_eqb (fst p) r
          then (if str_eqb (snd p) c then 1 else 0) else 0)
         + Z.of_nat (count_pairs pairs r c))%Z).
    { intros r. unfold count_pairs. cbn [filter].
      destruct (str_eqb (fst p) r), (str_eqb (snd p) c); cbn [andb length];
        lia. }
    rewrite (map_ext _ _ E), sum_list_add, IH, sum_indicator.
    + cbn [filter]. destruct (str_eqb (snd p) c); cbn [length]; lia.
    + exact Hnd.
    + apply Hin. now left.
    + intros q Hq. apply Hin. now right.
Qed.

Lemma top_pairs_count (df : list record) (top_teams : list pystr)
    (c : pystr) :
  length (filter (fun p => str_eqb (snd p) c) (top_pairs df top_teams))
  = top_count df top_teams c.
Proof.
  unfold top_pairs, top_count. induction df as [|r df IH]; [reflexivity|].
  cbn [filter]. destruct (str_in (team r) top_teams); cbn [andb map filter];
    [|exact IH].
  cbn [snd]. destruct (str_eqb (result r) c); cbn [length]; now rewrite IH.
Qed.

Lemma party_display_short (party : pystr) :
  (length (party_display party) <= 20)%nat.
Proof.
  unfold party_display.
  destruct (Nat.ltb_spec 20 (length party)) as [H|H]; [|exact H].
  change (getslice party 0 17) with (getslice party 0 (Z.of_nat 17)).
  rewrite getslice_prefix, length_app, firstn_length_le by lia.
  simpl. lia.
Qed.

Lemma map_outcome_all {A B : Type} (g : A -> outcome B) (P : B -> Prop)
    (l : list A) :
  (forall a, In a l -> exists b, g a = Returns b /\ P b) ->
  exists bs, map_outcome g l = Returns bs
             /\ length bs = length l /\ Forall P bs.
Proof.
  induction l as [|a l IH]; intros H.
  - exists []. repeat split. constructor.
  - destruct (H a (or_introl eq_refl)) as (b & Hb & Pb).
    destruct IH as (bs & Hbs & Hlen & HP).
    { intros x Hx. apply H. now right. }
    exists (b :: bs). cbn [map_outcome]. rewrite Hb, Hbs. cbn [and_then].
    repeat split; [simpl; now rewrite Hlen|now constructor].
Qed.

End LookupFacts.

Section ParsedResults.

(** The results of the parser, as the table needs them. *)
Lemma read_voting_data_results_aux (file : list pystr) (df : list record) :
  read_voting_data file = Ok df ->
  Forall (fun r => In (result r) result_categories) df.
Proof.
  rewrite read_voting_data_spec. intros [= <-].
  unfold parse_lines. apply Forall_map. apply Forall_forall.
  intros line _. apply categorize_result_range.
Qed.

End ParsedResults.

Section TableFrames.

Lemma total_not_category : ~ In (utf8 "Total") result_categories.
Proof.
  intros [H|[H|[H|[H|[]]]]]; vm_compute in H; discriminate H.
Qed.

(** The frame with its ['Total'] column, in closed form. *)
Lemma with_total_closed (v : pystr -> pystr -> Z) (idx : list pystr) :
  with_total (table (fun r => map (v r) result_categories) idx
                    result_categories)
  = table (fun r => map (v r) result_categories
                    ++ [sum_list (map (v r) result_categories)])
          idx (result_categories ++ [utf8 "Total"]).
Proof.
  unfold with_total.
  replace (sum_rows (table (fun r => map (v r) result_categories) idx
                           result_categories))
    with (map (fun r => sum_list (map (v r) result_categories)) idx)
    by (unfold sum_rows, table; cbn [rows]; now rewrite map_map).
  apply (set_column_fresh (fun r => map (v r) result_categories)
           (fun r => sum_list (map (v r) result_categories))).
  exact total_not_category.
Qed.

(** What the sorted table frame holds, whatever order the sort gave. *)
Lemma sorted_table (df : list record) (top_teams : list pystr)
    (f t : frame) :
  vote_by_team df top_teams = Returns f ->
  sorted_descending (utf8 "Total") (with_total f) t ->
  let v := fun r c => Z.of_nat (count_pairs (top_pairs df top_teams) r c) in
  let idx := sorted_unique (map fst (top_pairs df top_teams)) in
  let rowf := fun r => map (v r) result_categories
                       ++ [sum_list (map (v r) result_categories)] in
  columns t = result_categories ++ [utf8 "Total"]
  /\ Permutation (rows t) (map (fun r => (r, rowf r)) idx)
  /\ (forall party, In party (index t) <-> In party idx)
  /\ (forall party, In party (index t) ->
                    row_of party (rows t) = Some (rowf party)).
Proof.
  intros Hf0.
  assert (Hne : df <> []) by (intros ->; discriminate Hf0).
  revert Hf0. rewrite vote_by_team_closed by exact Hne.
  intros Hf (Hcols & Hperm & _).
  assert (E : f = table
                    (fun r => map (fun c => Z.of_nat
                                    (count_pairs (top_pairs df top_teams) r c))
                                  result_categories)
                    (sorted_unique (map fst (top_pairs df top_teams)))
                    result_categories) by congruence.
  subst f. intros v idx rowf.
  change (with_total _)
    with (with_total (table (fun r => map (v r) result_categories) idx
                            result_categories)) in Hcols, Hperm.
  rewrite (with_total_closed v idx) in Hcols, Hperm.
  cbn [columns rows table] in Hcols, Hperm.
  assert (Hidx : forall party, In party (index t) <-> In party idx).
  { intros party. unfold index.
    assert (Hp : Permutation (map fst (rows t))
                             (map fst (map (fun r => (r, rowf r)) idx)))
      by (now apply Permutation_map).
    rewrite map_map in Hp. cbn [fst] in Hp. rewrite map_id in Hp.
    split; intros H.
    - exact (Permutation_in _ Hp H).
    - exact (Permutation_in _ (Permutation_sym Hp) H). }
  repeat split; try apply Hidx; auto.
  intros party Hin.
  apply (row_of_table_perm rowf idx); auto. apply NoDup_sorted_unique.
Qed.

Ltac compute_positions :=
  repeat match goal with
         | |- context [position ?c ?l] =>
             let p := eval vm_compute in (position c l) in
             change (position c l) with p
         end.

(** The numbers of a party row, whatever the data frame holds. *)
Lemma party_numbers_closed (df : list record) (top_teams : list pystr)
    (f t : frame) (party : pystr) :
  vote_by_team df top_teams = Returns f ->
  sorted_descending (utf8 "Total") (with_total f) t ->
  In party (index t) ->
  str_in party top_teams = true
  /\ party_numbers t party
     = Returns
         (map (fun c => Z.of_nat (vote_count df party c)) result_categories
          ++ [sum_list (map (fun c => Z.of_nat (vote_count df party c))
                            result_categories)]).
Proof.
  intros Hf Hsort Hin.
  destruct (sorted_table df top_teams f t Hf Hsort)
    as (Hcols & _ & Hidx & Hrow).
  pose proof (Hrow party Hin) as Hr.
  apply Hidx, In_top_index in Hin as [Htop _]. split; [exact Htop|].
  unfold party_numbers, loc, column_position.
  rewrite Hr, Hcols. cbn [map_outcome]. compute_positions.
  cbn [and_then result_categories map app nth].
  now rewrite !count_pairs_top by exact Htop.
Qed.

Lemma sum_column_perm (t : frame) (l : list (pystr * list Z)) (i : nat) :
  Permutation (rows t) l ->
  sum_list (map (fun r => nth i (snd r) 0%Z) (rows t))
  = sum_list (map (fun r => nth i (snd r) 0%Z) l).
Proof. apply sum_list_perm. Qed.

(** The numbers of the totals row, whatever the data frame holds. *)
Lemma totals_closed (df : list record) (top_teams : list pystr)
    (f t : frame) :
  vote_by_team df top_teams = Returns f ->
  sorted_descending (utf8 "Total") (with_total f) t ->
  totals t
  = Returns [Z.of_nat (top_count df top_teams (utf8 "yes"));
             Z.of_nat (top_count df top_teams (utf8 "no"));
             Z.of_nat (top_count df top_teams (utf8 "abs"));
             Z.of_nat (top_count df top_teams (utf8 "others"));
             (Z.of_nat (top_count df top_teams (utf8 "yes"))
              + Z.of_nat (top_count df top_teams (utf8 "no"))
              + Z.of_nat (top_count df top_teams (utf8 "abs"))
              + Z.of_nat (top_count df top_teams (utf8 "others")))%Z].
Proof.
  intros Hf Hsort.
  destruct (sorted_table df top_teams f t Hf Hsort)
    as (Hcols & Hperm & _ & _).
  set (pairs := top_pairs df top_teams) in *.
  set (idx := sorted_unique (map fst pairs)) in *.
  assert (Hsum : forall c,
    sum_list (map (fun r => Z.of_nat (count_pairs pairs r c)) idx)
    = Z.of_nat (top_count df top_teams c)).
  { intros c. rewrite sum_count_pairs.
    - unfold pairs. now rewrite top_pairs_count.
    - apply NoDup_sorted_unique.
    - intros p Hp. apply In_sorted_unique. now apply in_map. }
  unfold totals, column_sum, column, column_position.
  rewrite Hcols. cbn [map_outcome]. compute_positions. cbn [and_then].
  rewrite !(sum_column_perm t _ _ Hperm), !map_map.
  cbn [snd result_categories map app nth].
  rewrite !Hsum. do 5 f_equal.
  unfold sum_list at 2. cbn [fold_right].
  rewrite (map_ext _
             (fun r => (Z.of_nat (count_pairs pairs r (utf8 "yes"))
                        + (Z.of_nat (count_pairs pairs r (utf8 "no"))
                           + (Z.of_nat (count_pairs pairs r (utf8 "abs"))
                              + Z.of_nat (count_pairs pairs r
                                                      (utf8 "others")))))%Z))
    by (intros r; lia).
  rewrite !sum_list_add, !Hsum. f_equal. lia.
Qed.

Lemma filter_all {A : Type} (p : A -> bool) (l : list A) :
  (forall a, In a l -> p a = true) -> filter p l = l.
Proof.
  induction l as [|a l IH]; intros H; [reflexivity|]. simpl.
  rewrite (H a (or_introl eq_refl)). f_equal. apply IH.
  intros x Hx. apply H. now right.
Qed.

(** With at most ten teams, the top teams are all the teams. *)
Lemma top_teams_all (df : list record) (top_teams : list pystr) :
  is_top_teams df top_teams ->
  (length (sorted_unique (map team df)) <= 10)%nat ->
  filter (fun r => str_in (team r) top_teams) df = df.
Proof.
  intros (order & Hperm & _ & ->) Hlen.
  rewrite firstn_all2 by (rewrite (Permutation_length Hperm); exact Hlen).
  apply filter_all. intros r Hr. apply str_in_In.
  apply (Permutation_in _ (Permutation_sym Hperm)).
  apply In_sorted_unique. now apply in_map.
Qed.

End TableFrames.

(** X12.  The frame of counts never lacks a category: whatever results the
    records of a data frame hold, for its top teams [vote_by_team] is built
    without [KeyError], its columns are ['yes'], ['no'], ['abs'] and
    ['others'] in this order, its index is the sorted top teams, and each
    cell is the number of rows of the party with the category, zero for a
    category no row has. *)
Theorem vote_by_team_columns (df : list record) (top_teams : list pystr) :
  df <> [] -> is_top_teams df top_teams ->
  exists f,
    vote_by_team df top_teams = Returns f
    /\ columns f = result_categories
    /\ index f
       = sorted_unique
           (map team (filter (fun r => str_in (team r) top_teams) df))
    /\ forall party category,
         In party (index f) -> In category result_categories ->
         loc f party category
         = Returns (Z.of_nat (vote_count df party category)).
Proof.
  intros Hne _.
  set (idx := sorted_unique (map fst (top_pairs df top_teams))).
  set (rowf := fun r => map (fun c => Z.of_nat
                                   (count_pairs (top_pairs df top_teams) r c))
                            result_categories).
  exists (table rowf idx result_categories).
  split; [now apply vote_by_team_closed|].
  assert (Hidx : index (table rowf idx result_categories) = idx)
    by (unfold index, table; cbn [rows]; rewrite map_map; apply map_id).
  repeat split.
  - rewrite Hidx. unfold idx, top_pairs. now rewrite map_map.
  - intros party category Hp Hc. rewrite Hidx in Hp.
    unfold loc, table. cbn [rows].
    rewrite (row_of_table rowf idx party Hp).
    destruct (position_In category result_categories Hc) as (i & Hi & _).
    unfold column_position. cbn [columns]. rewrite Hi. cbn [and_then].
    unfold rowf.
    rewrite (nth_map_position
               (fun c => Z.of_nat (count_pairs (top_pairs df top_teams)
                                               party c)) _ _ _ Hi).
    rewrite count_pairs_top; [reflexivity|].
    now apply (In_top_index df top_teams party).
Qed.

(** X13.  In the table, the row of a party holds its numbers of yes, no,
    abstention and other votes and, as total, the number of its
    representatives: no record of the parser falls outside the four
    columns. *)
Theorem party_row_numbers
    (file : list pystr) (df : list record) (top_teams : list pystr)
    (f t : frame) (party : pystr) :
  read_voting_data file = Ok df ->
  is_top_teams df top_teams ->
  vote_by_team df top_teams = Returns f ->
  sorted_descending (utf8 "Total") (with_total f) t ->
  In party (index t) ->
  party_numbers t party
  = Returns [Z.of_nat (vote_count df party (utf8 "yes"));
             Z.of_nat (vote_count df party (utf8 "no"));
             Z.of_nat (vote_count df party (utf8 "abs"));
             Z.of_nat (vote_count df party (utf8 "others"));
             Z.of_nat (team_size df party)].
Proof.
  intros Hread _ Hf Hsort Hin.
  destruct (party_numbers_closed df top_teams f t party Hf Hsort Hin)
    as [_ ->].
  cbn [result_categories map app].
  rewrite <- (vote_count_sum df party)
    by (apply (read_voting_data_results_aux file); exact Hread).
  unfold sum_list. cbn [fold_right]. do 6 f_equal. lia.
Qed.

(** X14.  The totals row of the table holds, for each category, the number
    of rows of the top teams with this result, and as grand total their
    sum; for data read by the parser the grand total is the number of rows
    of the top teams, which are all the rows when there are at most ten
    teams. *)
Theorem totals_row_numbers
    (file : list pystr) (df : list record) (top_teams : list pystr)
    (f t : frame) :
  read_voting_data file = Ok df ->
  is_top_teams df top_teams ->
  vote_by_team df top_teams = Returns f ->
  sorted_descending (utf8 "Total") (with_total f) t ->
  let yes := Z.of_nat (top_count df top_teams (utf8 "yes")) in
  let no := Z.of_nat (top_count df top_teams (utf8 "no")) in
  let abs := Z.of_nat (top_count df top_teams (utf8 "abs")) in
  let others := Z.of_nat (top_count df top_teams (utf8 "others")) in
  totals t = Returns [yes; no; abs; others; (yes + no + abs + others)%Z]
  /\ (yes + no + abs + others)%Z
     = Z.of_nat (length (filter (fun r => str_in (team r) top_teams) df))
  /\ ((length (sorted_unique (map team df)) <= 10)%nat ->
      (yes + no + abs + others)%Z = Z.of_nat (length df)).
Proof.
  intros Hread Htop Hf Hsort yes no abs others.
  assert (Hsum : (yes + no + abs + others)%Z
                 = Z.of_nat (length (filter (fun r => str_in (team r)
                                                             top_teams) df))).
  { rewrite <- (top_count_sum df top_teams)
      by (apply (read_voting_data_results_aux file); exact Hread).
    unfold yes, no, abs, others. lia. }
  split; [exact (totals_closed df top_teams f t Hf Hsort)|].
  split; [exact Hsum|].
  intros Hlen. rewrite Hsum. now rewrite top_teams_all.
Qed.

(** X15.  The table is always built: for any data frame with records and
    its top teams, [table_data] raises no [KeyError] and holds one row per
    party of the index and the totals row, each of six cells, the first of
    at most 20 characters. *)
Theorem table_data_shape
    (df : list record) (top_teams : list pystr) (f t : frame) :
  is_top_teams df top_teams ->
  vote_by_team df top_teams = Returns f ->
  sorted_descending (utf8 "Total") (with_total f) t ->
  exists table_rows,
    table_data t = Returns table_rows
    /\ length table_rows = S (length (index t))
    /\ Forall (fun row => length row = 6%nat
                          /\ (length (hd [] row) <= 20)%nat) table_rows.
Proof.
  intros _ Hf Hsort. unfold table_data.
  destruct (map_outcome_all
              (fun party =>
                 numbers <~ party_numbers t party ;;
                 Returns (party_display party :: map str_int numbers))
              (fun row => length row = 6%nat
                          /\ (length (hd [] row) <= 20)%nat)
              (index t))
    as (party_rows & -> & Hlen & Hall).
  { intros party Hin.
    destruct (party_numbers_closed df top_teams f t party Hf Hsort Hin)
      as [_ ->].
    eexists. split; [reflexivity|]. split; [reflexivity|].
    apply party_display_short. }
  rewrite (totals_closed df top_teams f t Hf Hsort). cbn [and_then].
  eexists. split; [reflexivity|]. split.
  - rewrite length_app, Hlen. simpl. lia.
  - apply Forall_app. split; [exact Hall|].
    constructor; [|constructor]. split; [reflexivity|].
    cbn [hd]. change (length (utf8 "TOTAL")) with 5%nat. lia.
Qed.


Lemma party_row_numbers_witness :
  party_numbers three_rows_table (utf8 "APP")
  = Returns [Z.of_nat (vote_count three_rows (utf8 "APP") (utf8 "yes"));
             Z.of_nat (vote_count three_rows (utf8 "APP") (utf8 "no"));
             Z.of_nat (vote_count three_rows (utf8 "APP") (utf8 "abs"));
             Z.of_nat (vote_count three_rows (utf8 "APP") (utf8 "others"));
             Z.of_nat (team_size three_rows (utf8 "APP"))].
Proof.
  apply (party_row_numbers three_rows_file three_rows
           [utf8 "APP"; utf8 "PP"] three_rows_counts three_rows_table).
  - vm_compute. reflexivity.
  - exists [utf8 "APP"; utf8 "PP"].
    split; [vm_compute; apply Permutation_refl|].
    split; [repeat constructor; cbn; lia|reflexivity].
  - vm_compute. reflexivity.
  - split; [reflexivity|]. split; [vm_compute; apply Permutation_refl|].
    exists 4%nat. split; [reflexivity|].
    repeat constructor. cbn. lia.
  - left. reflexivity.
Defined.

Lemma totals_row_numbers_witness :
  let yes := Z.of_nat (top_count three_rows [utf8 "APP"; utf8 "PP"]
                                 (utf8 "yes")) in
  let no := Z.of_nat (top_count three_rows [utf8 "APP"; utf8 "PP"]
                                (utf8 "no")) in
  let abs := Z.of_nat (top_count three_rows [utf8 "APP"; utf8 "PP"]
                                 (utf8 "abs")) in
  let others := Z.of_nat (top_count three_rows [utf8 "APP"; utf8 "PP"]
                                    (utf8 "others")) in
  totals three_rows_table
  = Returns [yes; no; abs; others; (yes + no + abs + others)%Z]
  /\ (yes + no + abs + others)%Z
     = Z.of_nat (length (filter (fun r => str_in (team r)
                                                 [utf8 "APP"; utf8 "PP"])
                                three_rows))
  /\ ((length (sorted_unique (map team three_rows)) <= 10)%nat ->
      (yes + no + abs + others)%Z = Z.of_nat (length three_rows)).
Proof.
  apply (totals_row_numbers three_rows_file three_rows
           [utf8 "APP"; utf8 "PP"] three_rows_counts three_rows_table).
  - vm_compute. reflexivity.
  - exists [utf8 "APP"; utf8 "PP"].
    split; [vm_compute; apply Permutation_refl|].
    split; [repeat constructor; cbn; lia|reflexivity].
  - vm_compute. reflexivity.
  - split; [reflexivity|]. split; [vm_compute; apply Permutation_refl|].
    exists 4%nat. split; [reflexivity|].
    repeat constructor. cbn. lia.
Defined.

Lemma table_data_shape_witness :
  exists table_rows,
    table_data three_rows_table = Returns table_rows
    /\ length table_rows = S (length (index three_rows_table))
    /\ Forall (fun row => length row = 6%nat
                          /\ (length (hd [] row) <= 20)%nat) table_rows.
Proof.
  apply (table_data_shape three_rows [utf8 "APP"; utf8 "PP"]
           three_rows_counts three_rows_table).
  - exists [utf8 "APP"; utf8 "PP"].
    split; [vm_compute; apply Permutation_refl|].
    split; [repeat constructor; cbn; lia|reflexivity].
  - vm_compute. reflexivity.
  - split; [reflexivity|]. split; [vm_compute; apply Permutation_refl|].
    exists 4%nat. split; [reflexivity|].
    repeat constructor. cbn. lia.
Defined.

(** X16.  The colours of the pie chart are always found: for data read by
    the parser, in whatever order [value_counts] lists the distinct
    results, the lookup in [result_colors] raises no [KeyError] and gives
    one colour per distinct result. *)
Theorem pie_colors_found
    (file : list pystr) (df : list record) (result_index : list pystr) :
  read_voting_data file = Ok df -> df <> [] ->
  Permutation result_index (sorted_unique (map result df)) ->
  exists colors,
    pie_colors result_index = Returns colors
    /\ length colors = length result_index
    /\ Forall (fun c => In c (map snd result_colors)) colors.
Proof.
  intros Hread _ Hperm. unfold pie_colors.
  apply (map_outcome_all (dict_getitem result_colors)
           (fun c => In c (map snd result_colors))).
  intros r Hr.
  apply (Permutation_in _ Hperm), In_sorted_unique, in_map_iff in Hr.
  destruct Hr as (rec & <- & Hrec).
  pose proof (read_voting_data_results_aux file df Hread) as Hall.
  rewrite Forall_forall in Hall. specialize (Hall rec Hrec).
  destruct Hall as [H|[H|[H|[H|[]]]]]; rewrite <- H;
    eexists; (split; [vm_compute; reflexivity|]); vm_compute; tauto.
Qed.

Lemma pie_colors_found_witness :
  exists colors,
    pie_colors [utf8 "others"; utf8 "no"; utf8 "yes"] = Returns colors
    /\ length colors = length [utf8 "others"; utf8 "no"; utf8 "yes"]
    /\ Forall (fun c => In c (map snd result_colors)) colors.
Proof.
  apply (pie_colors_found three_rows_file three_rows).
  - vm_compute. reflexivity.
  - discriminate.
  - vm_compute. apply perm_swap.
Defined.

(** A result outside the four categories, which the parser never gives,
    would make the lookup raise. *)
Example pie_colors_key_error :
  pie_colors [utf8 "yes"; utf8 "absent"] = Raises (KeyError (utf8 "absent")).
Proof. vm_compute. reflexivity. Qed.


Lemma vote_by_team_columns_witness :
  exists f,
    vote_by_team three_rows [utf8 "APP"; utf8 "PP"] = Returns f
    /\ columns f = result_categories
    /\ index f
       = sorted_unique
           (map team (filter (fun r => str_in (team r)
                                               [utf8 "APP"; utf8 "PP"])
                             three_rows))
    /\ forall party category,
         In party (index f) -> In category result_categories ->
         loc f party category
         = Returns (Z.of_nat (vote_count three_rows party category)).
Proof.
  apply (vote_by_team_columns three_rows [utf8 "APP"; utf8 "PP"]).
  - discriminate.
  - exists [utf8 "APP"; utf8 "PP"].
    split; [vm_compute; apply Permutation_refl|].
    split; [repeat constructor; cbn; lia|reflexivity].
Defined.

Section CodecConverse.
Local Open Scope N_scope.

Ltac Zify.zify_post_hook ::= Z.to_euclidean_division_equations.

Ltac bools_to_props :=
  repeat match goal with
         | H : (_ && _)%bool = true |- _ =>
             apply andb_true_iff in H; destruct H
         | H : N.leb _ _ = true |- _ => apply N.leb_le in H
         | H : N.ltb _ _ = true |- _ => apply N.ltb_lt in H
         | H : N.ltb _ _ = false |- _ => apply N.ltb_ge in H
         end.

Ltac decide_comparisons :=
  repeat match goal with
         | |- context [N.ltb ?a ?b] =>
             first [ replace (N.ltb a b) with true
                       by (symmetry; apply N.ltb_lt; lia)
                   | replace (N.ltb a b) with false
                       by (symmetry; apply N.ltb_ge; lia) ]
         | |- context [N.leb ?a ?b] =>
             first [ replace (N.leb a b) with true
                       by (symmetry; apply N.leb_le; lia)
                   | replace (N.leb a b) with false
                       by (symmetry; apply N.leb_gt; lia) ]
         end.

(** The bytes that a decoding step consumes are the encoding of the code
    point it gives. *)
Lemma encode_one_decode_one (bs rest : list N) (c : char) :
  decode_one bs = Some (c, rest) ->
  exists pre, bs = pre ++ rest /\ encode_one c = Some pre.
Proof.
  unfold decode_one, between. destruct bs as [|b0 r0]; [discriminate|].
  destruct (b0 <? 0x80) eqn:H0.
  { intros E. apply some_inj in E.
    assert (Ec : b0 = c) by congruence.
    assert (Er : r0 = rest) by congruence. subst c rest.
    exists [b0]. split; [reflexivity|]. bools_to_props.
    unfold encode_one. decide_comparisons. reflexivity. }
  destruct ((0xC2 <=? b0) && (b0 <=? 0xDF)) eqn:H1.
  { destruct r0 as [|b1 r1]; [discriminate|].
    destruct ((0x80 <=? b1) && (b1 <=? 0xBF)) eqn:C1; [|discriminate].
    intros E. apply some_inj in E.
    assert (Ec : (b0 - 0xC0) * 0x40 + (b1 - 0x80) = c) by congruence.
    assert (Er : r1 = rest) by congruence. subst rest.
    exists [b0; b1]. split; [reflexivity|]. bools_to_props.
    unfold encode_one, between. decide_comparisons.
    do 2 f_equal; [lia|f_equal; lia]. }
  destruct ((0xE0 <=? b0) && (b0 <=? 0xEF)) eqn:H2.
  { destruct r0 as [|b1 [|b2 r2]]; try discriminate.
    match goal with
    | |- context [if ?cond then _ else _] =>
        destruct cond eqn:C; [|discriminate]
    end.
    intros E. apply some_inj in E.
    assert (Ec : (b0 - 0xE0) * 0x1000 + (b1 - 0x80) * 0x40 + (b2 - 0x80) = c)
      by congruence.
    assert (Er : r2 = rest) by congruence. subst rest.
    exists [b0; b1; b2]. split; [reflexivity|]. bools_to_props.
    assert (Hc : 0x800 <= c < 0x10000 /\ (c < 0xD800 \/ 0xDFFF < c)).
    { destruct (N.eqb_spec b0 0xE0); destruct (N.eqb_spec b0 0xED); lia. }
    assert (Hb : 0x80 <= b1 <= 0xBF)
      by (destruct (b0 =? 0xE0); destruct (b0 =? 0xED); lia).
    unfold encode_one, between.
    replace (c <? 0x80) with false by (symmetry; apply N.ltb_ge; lia).
    replace (c <? 0x800) with false by (symmetry; apply N.ltb_ge; lia).
    replace (c <? 0x10000) with true by (symmetry; apply N.ltb_lt; lia).
    replace ((0xD800 <=? c) && (c <=? 0xDFFF)) with false.
    2:{ symmetry. apply andb_false_iff.
        destruct Hc as [_ [Hc|Hc]]; [left; apply N.leb_gt|right; apply N.leb_gt];
          lia. }
    do 2 f_equal; [lia|f_equal; [lia|f_equal; lia]]. }
  destruct ((0xF0 <=? b0) && (b0 <=? 0xF4)) eqn:H3; [|discriminate].
  destruct r0 as [|b1 [|b2 [|b3 r3]]]; try discriminate.
  match goal with
  | |- context [if ?cond then _ else _] =>
      destruct cond eqn:C; [|discriminate]
  end.
  intros E. apply some_inj in E.
  assert (Ec : (b0 - 0xF0) * 0x40000 + (b1 - 0x80) * 0x1000
               + (b2 - 0x80) * 0x40 + (b3 - 0x80) = c) by congruence.
  assert (Er : r3 = rest) by congruence. subst rest.
  exists [b0; b1; b2; b3]. split; [reflexivity|]. bools_to_props.
  assert (Hc : 0x10000 <= c < 0x110000).
  { destruct (N.eqb_spec b0 0xF0); destruct (N.eqb_spec b0 0xF4); lia. }
  assert (Hb : 0x80 <= b1 <= 0xBF)
    by (destruct (b0 =? 0xF0); destruct (b0 =? 0xF4); lia).
  unfold encode_one, between.
  replace (c <? 0x80) with false by (symmetry; apply N.ltb_ge; lia).
  replace (c <? 0x800) with false by (symmetry; apply N.ltb_ge; lia).
  replace (c <? 0x10000) with false by (symmetry; apply N.ltb_ge; lia).
  replace (c <? 0x110000) with true by (symmetry; apply N.ltb_lt; lia).
  do 2 f_equal; [lia|f_equal; [lia|f_equal; [lia|f_equal; lia]]].
Qed.

(** Encoding undoes decoding. *)
Lemma decode_loop_encode (n : nat) (bs : list N) (s : pystr) :
  decode_loop n bs = Some s -> utf_8_encode s = Some bs.
Proof.
  revert bs s. induction n as [|n IH]; intros bs s.
  - destruct bs; [now intros [= <-]|discriminate].
  - destruct bs as [|b0 r0]; [now intros [= <-]|]. cbn [decode_loop].
    destruct (decode_one (b0 :: r0)) as [[c rest]|] eqn:E; [|discriminate].
    destruct (decode_loop n rest) as [s'|] eqn:E'; [|discriminate].
    intros H. apply some_inj in H. subst s.
    destruct (encode_one_decode_one _ _ _ E) as (pre & -> & Hpre).
    cbn [utf_8_encode]. now rewrite Hpre, (IH _ _ E').
Qed.

Ltac Zify.zify_post_hook ::= idtac.

End CodecConverse.

(** X17.  Reading succeeds exactly on the files that are the UTF-8 encoding
    of some text, and then gives the records of the lines of that text;
    on every other file it raises [UnicodeDecodeError], and it raises
    nothing else. *)
Theorem read_succeeds_iff_utf8 (content : list N) :
  ((exists data, read_voting_file content = Returns data)
   <-> exists text, utf_8_encode text = Some content)
  /\ ((forall text, utf_8_encode text <> Some content)
      <-> read_voting_file content = Raises UnicodeDecodeError)
  /\ forall text,
       utf_8_encode text = Some content ->
       read_voting_file content
       = propagate (read_voting_data (iter_lines (universal_newlines text))).
Proof.
  rewrite read_voting_file_spec.
  destruct (utf_8_decode content) as [text|] eqn:E.
  - pose proof (decode_loop_encode _ _ _ E) as Henc.
    repeat split.
    + intros _. now exists text.
    + intros _. eexists. reflexivity.
    + intros H. exfalso. exact (H text Henc).
    + discriminate.
    + intros text' H'. apply utf_8_decode_encode in H'.
      assert (text' = text) by congruence. subst text'.
      now rewrite read_voting_data_spec.
  - repeat split.
    + intros [data [=]].
    + intros [text H]. apply utf_8_decode_encode in H. congruence.
    + intros _ text H. apply utf_8_decode_encode in H. congruence.
    + intros text H. apply utf_8_decode_encode in H. congruence.
Qed.
